(** * GEOS: RelateGeometry (RelateNG) and WKBWriter

    A shallow embedding of

      - src/operation/relateng/RelateGeometry.cpp  (the geometry wrapper of
        the RelateNG engine), and
      - source/io/WKBWriter.cpp                    (the WKB serialiser),

    over one model of the geometry hierarchy.  A C++ [double] is a
    [spec_float] (IEEE-754 data with IEEE comparison); object state is a
    record that is passed explicitly; a call whose behaviour C++ leaves
    undefined (a [static_cast] to a class the object is not an instance of)
    yields [None]; a thrown exception is the [inl] of a sum. *)

From Stdlib Require Import String.
From Stdlib Require Import ZArith List Bool Lia PeanoNat SpecFloat.
Import ListNotations.

Local Open Scope Z_scope.

(* ====================================================================== *)
(** * geos::geom — the data model                                          *)
(* ====================================================================== *)

Module geom.

(** A C++ [double]. *)
Definition double : Type := spec_float.

(** [a == b] on doubles: false as soon as one side is NaN, and +0 == -0. *)
Definition double_eq (a b : double) : bool := SFeqb a b.

(** The binary64 value of a (small) integer, for writing coordinates down. *)
Definition dbl (n : Z) : double := binary_normalize 53 1024 n 0 false.

Definition DoubleNotANumber : double := S754_nan.

(** Coordinate: x, y and the (optional) z ordinate. *)
Record Coordinate : Type := mkCoordinate { x : double; y : double; z : double }.

Definition xy (a b : Z) : Coordinate := mkCoordinate (dbl a) (dbl b) DoubleNotANumber.
Definition xyz (a b c : Z) : Coordinate := mkCoordinate (dbl a) (dbl b) (dbl c).

(** Modelled from the spec: [CoordinateXY::equals2D] (Coordinate.h is not among
    the source files); "equality for topology purposes is 2D only": the x and
    the y ordinates are compared with [==], z is ignored. *)
Definition equals2D (p q : Coordinate) : bool :=
  double_eq (x p) (x q) && double_eq (y p) (y q).

Definition nullCoordinate : Coordinate :=
  mkCoordinate DoubleNotANumber DoubleNotANumber DoubleNotANumber.

(** CoordinateSequence: the coordinates and the sequence's dimension (2 or 3,
    as [getDimension()] reports it). *)
Record CoordinateSequence : Type := mkCoordinateSequence {
  cs_dimension : Z;
  cs_coords : list Coordinate
}.

Definition seq2 (l : list Coordinate) : CoordinateSequence := mkCoordinateSequence 2 l.
Definition seq3 (l : list Coordinate) : CoordinateSequence := mkCoordinateSequence 3 l.

Definition getSize (cs : CoordinateSequence) : nat := length (cs_coords cs).
Definition getAt (cs : CoordinateSequence) (i : nat) : Coordinate :=
  nth i (cs_coords cs) nullCoordinate.
Definition cs_isEmpty (cs : CoordinateSequence) : bool :=
  match cs_coords cs with [] => true | _ :: _ => false end.

Inductive GeometryTypeId : Type :=
| GEOS_POINT
| GEOS_LINESTRING
| GEOS_LINEARRING
| GEOS_POLYGON
| GEOS_MULTIPOINT
| GEOS_MULTILINESTRING
| GEOS_MULTIPOLYGON
| GEOS_GEOMETRYCOLLECTION.

Definition typeId_eqb (a b : GeometryTypeId) : bool :=
  match a, b with
  | GEOS_POINT, GEOS_POINT
  | GEOS_LINESTRING, GEOS_LINESTRING
  | GEOS_LINEARRING, GEOS_LINEARRING
  | GEOS_POLYGON, GEOS_POLYGON
  | GEOS_MULTIPOINT, GEOS_MULTIPOINT
  | GEOS_MULTILINESTRING, GEOS_MULTILINESTRING
  | GEOS_MULTIPOLYGON, GEOS_MULTIPOLYGON
  | GEOS_GEOMETRYCOLLECTION, GEOS_GEOMETRYCOLLECTION => true
  | _, _ => false
  end.

(** The geometry hierarchy as a tagged variant.  The three Multi classes
    derive from GeometryCollection and store their elements the same way
    ([std::vector<std::unique_ptr<Geometry>> geometries]); that their elements
    have the matching class is the invariant [well_typed] below. *)
#[warnings="-register-all"]
Inductive Geometry : Type :=
| Point (coordinates : CoordinateSequence)
| LineString (points : CoordinateSequence)
| LinearRing (points : CoordinateSequence)
| Polygon (shell : CoordinateSequence) (holes : list CoordinateSequence)
| MultiPoint (geometries : list Geometry)
| MultiLineString (geometries : list Geometry)
| MultiPolygon (geometries : list Geometry)
| GeometryCollection (geometries : list Geometry).

Definition getGeometryTypeId (g : Geometry) : GeometryTypeId :=
  match g with
  | Point _ => GEOS_POINT
  | LineString _ => GEOS_LINESTRING
  | LinearRing _ => GEOS_LINEARRING
  | Polygon _ _ => GEOS_POLYGON
  | MultiPoint _ => GEOS_MULTIPOINT
  | MultiLineString _ => GEOS_MULTILINESTRING
  | MultiPolygon _ => GEOS_MULTIPOLYGON
  | GeometryCollection _ => GEOS_GEOMETRYCOLLECTION
  end.

(** Dimension: FALSE = -1, P = 0, L = 1, A = 2. *)
Module Dimension.
Definition False : Z := -1.
Definition P : Z := 0.
Definition L : Z := 1.
Definition A : Z := 2.
End Dimension.

(** Modelled from the spec: [isEmpty()] of the input geometry contract (the
    classes' own files are not among the sources): a point or a line without
    coordinates, a polygon with an empty shell, a collection all of whose
    elements are empty. *)
Fixpoint isEmpty (g : Geometry) : bool :=
  match g with
  | Point cs | LineString cs | LinearRing cs => cs_isEmpty cs
  | Polygon sh _ => cs_isEmpty sh
  | MultiPoint gs | MultiLineString gs | MultiPolygon gs | GeometryCollection gs =>
      forallb isEmpty gs
  end.

(** Modelled from the spec: [getDimension()], with the spec's values
    P = 0, L = 1, A = 2 by class.  For a GeometryCollection the declaration in
    GeometryCollection.h says: "Returns the maximum dimension of geometries in
    this collection", the empty elements included, and FALSE when there is
    none. *)
Fixpoint getDimension (g : Geometry) : Z :=
  match g with
  | Point _ | MultiPoint _ => Dimension.P
  | LineString _ | LinearRing _ | MultiLineString _ => Dimension.L
  | Polygon _ _ | MultiPolygon _ => Dimension.A
  | GeometryCollection gs =>
      fold_right (fun e d => Z.max (getDimension e) d) Dimension.False gs
  end.

(** [getNumGeometries()] / [getGeometryN(i)] as one list: the elements of a
    collection, and the geometry itself for an atomic one. *)
Definition elements (g : Geometry) : list Geometry :=
  match g with
  | MultiPoint gs | MultiLineString gs | MultiPolygon gs | GeometryCollection gs => gs
  | _ => [g]
  end.

(** [static_cast<const GeometryCollection*>(g)]: defined only when [g] is a
    GeometryCollection or one of the classes derived from it. *)
Definition static_cast_GeometryCollection (g : Geometry) : option (list Geometry) :=
  match g with
  | MultiPoint gs | MultiLineString gs | MultiPolygon gs | GeometryCollection gs => Some gs
  | _ => None
  end.

(** Modelled from the spec: [GeometryCollection::getAllGeometries], declared
    in GeometryCollection.h and defined in a file that is not among the
    sources.  The spec has the dimension analysis "recursing into
    heterogeneous collections"; the declaration's contract is "Recurse into
    collection and populate vector with just the simple non-collection
    components of the collection."  [components g] are the components one
    element contributes. *)
Fixpoint components (g : Geometry) : list Geometry :=
  match g with
  | MultiPoint gs | MultiLineString gs | MultiPolygon gs | GeometryCollection gs =>
      flat_map components gs
  | _ => [g]
  end.

Definition getAllGeometries (geometries : list Geometry) : list Geometry :=
  flat_map components geometries.

Definition isAtomic (g : Geometry) : bool :=
  match g with
  | Point _ | LineString _ | LinearRing _ | Polygon _ _ => true
  | _ => false
  end.

Definition isPoint (g : Geometry) : bool :=
  match g with Point _ => true | _ => false end.
Definition isLineString (g : Geometry) : bool :=
  match g with LineString _ => true | _ => false end.
Definition isPolygon (g : Geometry) : bool :=
  match g with Polygon _ _ => true | _ => false end.

(** The class invariant of the typed collections, and no LinearRing used as
    a geometry of its own ([ringFree]). *)
Fixpoint well_typed (g : Geometry) : bool :=
  match g with
  | MultiPoint gs => forallb isPoint gs
  | MultiLineString gs => forallb isLineString gs
  | MultiPolygon gs => forallb isPolygon gs
  | GeometryCollection gs => forallb well_typed gs
  | _ => true
  end.

Fixpoint ringFree (g : Geometry) : bool :=
  match g with
  | LinearRing _ => false
  | MultiPoint gs | MultiLineString gs | MultiPolygon gs | GeometryCollection gs =>
      forallb ringFree gs
  | _ => true
  end.

End geom.

(* ====================================================================== *)
(** * geos::operation::relateng — RelateGeometry                           *)
(* ====================================================================== *)

Module relateng.
Import geom.

(** The collaborators of RelateGeometry whose code is outside these files
    (Envelope, BoundaryNodeRule, RelatePointLocator, DimensionLocation,
    ComponentCoordinateExtracter): what RelateGeometry.cpp calls on them, and
    nothing about what they compute.  A method of the locator may change the
    locator object, so it returns the object with its result. *)
Class Collaborators : Type := {
  Envelope : Type;
  getEnvelopeInternal : Geometry -> Envelope;
  Envelope_intersects : Envelope -> Envelope -> bool;
  BoundaryNodeRule : Type;
  RelatePointLocator : Type;
  new_RelatePointLocator : Geometry -> bool -> BoundaryNodeRule -> RelatePointLocator;
  Locator_locateNodeWithDim :
    RelatePointLocator -> Coordinate -> option Geometry -> Z * RelatePointLocator;
  Locator_locateLineEnd : RelatePointLocator -> Coordinate -> Z * RelatePointLocator;
  Locator_locateNode :
    RelatePointLocator -> Coordinate -> option Geometry -> Z * RelatePointLocator;
  Locator_locateWithDim : RelatePointLocator -> Coordinate -> Z * RelatePointLocator;
  Locator_hasBoundary : RelatePointLocator -> bool * RelatePointLocator;
  DimensionLocation_AREA_INTERIOR : Z;
  ComponentCoordinateExtracter_getCoordinates : Geometry -> list Coordinate
}.

(** Coordinate::ConstXYSet, a set of coordinates keyed by their x and y.  The
    list holds the members of the set, one for each key, in the order of their
    first insertion; the code's set iterates in key order, which nothing here
    reads. *)
Definition ConstXYSet : Type := list Coordinate.

Fixpoint XYSet_insert (s : ConstXYSet) (p : Coordinate) : ConstXYSet :=
  match s with
  | [] => [p]
  | q :: s' => if equals2D q p then s else q :: XYSet_insert s' p
  end.

Definition XYSet_of_range (pts : list Coordinate) : ConstXYSet :=
  fold_left XYSet_insert pts [].

Definition XYSet_empty (s : ConstXYSet) : bool :=
  match s with [] => true | _ :: _ => false end.

(** Modelled from the spec: RelateSegmentString ("SegmentString ... carries:
    source flag (isA), an element id, a ring id (0 = exterior, i>0 = i-th
    hole, -1 = line), and a back-pointer to the parent polygon when
    applicable"); RelateSegmentString.cpp is not among the source files.  The
    fields are the arguments [createLine] and [createRing] are called with. *)
Record RelateSegmentString : Type := mkSegmentString {
  ss_pts : CoordinateSequence;
  ss_isA : bool;
  ss_elementId : Z;
  ss_ringId : Z;
  ss_parentPolygonal : option Geometry
}.

(** [createLine(pts, isA, elementId, this)] and [createRing(pts, isA,
    elementId, ringId, parentPoly, this)]; the back-pointer [this] to the
    RelateGeometry is left out of the record. *)
Definition createLine (pts : CoordinateSequence) (isA : bool) (elementId : Z)
  : RelateSegmentString :=
  mkSegmentString pts isA elementId (-1) None.

Definition createRing (pts : CoordinateSequence) (isA : bool) (elementId ringId : Z)
  (poly : Geometry) : RelateSegmentString :=
  mkSegmentString pts isA elementId ringId (Some poly).

Section RelateGeometry.
Context {collab : Collaborators}.

(** The data members of RelateGeometry.  [locator] is the
    [std::unique_ptr<RelatePointLocator>]: [None] is the null pointer, [Some a]
    the address of the object it owns.  [elementId] is the [int] counter of
    the extraction; it counts extracted elements and stays far below 2^31. *)
Record RelateGeometry : Type := mkRelateGeometry {
  geom : Geometry;
  m_isPrepared : bool;
  geomEnv : Envelope;
  boundaryNodeRule : BoundaryNodeRule;
  geomDim : Z;
  isLineZeroLen : bool;
  isGeomEmpty : bool;
  hasPoints : bool;
  hasLines : bool;
  hasAreas : bool;
  elementId : Z;
  locator : option nat;
  uniquePoints : ConstXYSet
}.

Definition set_geomDim (d : Z) (rg : RelateGeometry) : RelateGeometry :=
  mkRelateGeometry (geom rg) (m_isPrepared rg) (geomEnv rg) (boundaryNodeRule rg)
    d (isLineZeroLen rg) (isGeomEmpty rg) (hasPoints rg) (hasLines rg) (hasAreas rg)
    (elementId rg) (locator rg) (uniquePoints rg).
Definition set_hasPoints (b : bool) (rg : RelateGeometry) : RelateGeometry :=
  mkRelateGeometry (geom rg) (m_isPrepared rg) (geomEnv rg) (boundaryNodeRule rg)
    (geomDim rg) (isLineZeroLen rg) (isGeomEmpty rg) b (hasLines rg) (hasAreas rg)
    (elementId rg) (locator rg) (uniquePoints rg).
Definition set_hasLines (b : bool) (rg : RelateGeometry) : RelateGeometry :=
  mkRelateGeometry (geom rg) (m_isPrepared rg) (geomEnv rg) (boundaryNodeRule rg)
    (geomDim rg) (isLineZeroLen rg) (isGeomEmpty rg) (hasPoints rg) b (hasAreas rg)
    (elementId rg) (locator rg) (uniquePoints rg).
Definition set_hasAreas (b : bool) (rg : RelateGeometry) : RelateGeometry :=
  mkRelateGeometry (geom rg) (m_isPrepared rg) (geomEnv rg) (boundaryNodeRule rg)
    (geomDim rg) (isLineZeroLen rg) (isGeomEmpty rg) (hasPoints rg) (hasLines rg) b
    (elementId rg) (locator rg) (uniquePoints rg).
Definition set_elementId (e : Z) (rg : RelateGeometry) : RelateGeometry :=
  mkRelateGeometry (geom rg) (m_isPrepared rg) (geomEnv rg) (boundaryNodeRule rg)
    (geomDim rg) (isLineZeroLen rg) (isGeomEmpty rg) (hasPoints rg) (hasLines rg)
    (hasAreas rg) e (locator rg) (uniquePoints rg).
Definition set_locator (l : option nat) (rg : RelateGeometry) : RelateGeometry :=
  mkRelateGeometry (geom rg) (m_isPrepared rg) (geomEnv rg) (boundaryNodeRule rg)
    (geomDim rg) (isLineZeroLen rg) (isGeomEmpty rg) (hasPoints rg) (hasLines rg)
    (hasAreas rg) (elementId rg) l (uniquePoints rg).
Definition set_uniquePoints (s : ConstXYSet) (rg : RelateGeometry) : RelateGeometry :=
  mkRelateGeometry (geom rg) (m_isPrepared rg) (geomEnv rg) (boundaryNodeRule rg)
    (geomDim rg) (isLineZeroLen rg) (isGeomEmpty rg) (hasPoints rg) (hasLines rg)
    (hasAreas rg) (elementId rg) (locator rg) s.

(** ** isZeroLength(const LineString* line) *)

(** The loop [for (i = 1; i < line->getNumPoints(); i++)], entered at index
    [i] with [steps] iterations left. *)
Fixpoint isZeroLength_loop (line : CoordinateSequence) (p0 : Coordinate)
  (i steps : nat) : bool :=
  match steps with
  | O => true
  | S steps' =>
      let pi := getAt line i in
      if negb (equals2D p0 pi) then false
      else isZeroLength_loop line p0 (S i) steps'
  end.

(** [isZeroLength(const LineString* line)], the line given by its
    coordinates. *)
Definition isZeroLength_LineString (line : CoordinateSequence) : bool :=
  if (2 <=? getSize line)%nat then
    let p0 := getAt line 0 in
    isZeroLength_loop line p0 1 (getSize line - 1)
  else true.

(** ** isZeroLength(const Geometry* geom) *)

(** The loop over [elems]. *)
Fixpoint isZeroLength_elems (elems : list Geometry) : bool :=
  match elems with
  | [] => true
  | elem :: rest =>
      match elem with
      | LineString line =>
          if negb (isZeroLength_LineString line) then false
          else isZeroLength_elems rest
      | _ => isZeroLength_elems rest
      end
  end.

(** The geometry is cast to GeometryCollection whatever its class is; the
    result is [None] where that cast is undefined. *)
Definition isZeroLength (g : Geometry) : option bool :=
  match static_cast_GeometryCollection g with
  | None => None
  | Some col => Some (isZeroLength_elems (getAllGeometries col))
  end.

(** ** analyzeDimensions() *)

(** One iteration of the loop over [elems]. *)
Definition analyzeDimensions_elem (elem : Geometry) (rg : RelateGeometry)
  : RelateGeometry :=
  if isEmpty elem then rg
  else
    let rg1 :=
      if typeId_eqb (getGeometryTypeId elem) GEOS_POINT then
        let r := set_hasPoints true rg in
        if geomDim r <? Dimension.P then set_geomDim Dimension.P r else r
      else rg in
    let rg2 :=
      if typeId_eqb (getGeometryTypeId elem) GEOS_LINESTRING then
        let r := set_hasLines true rg1 in
        if geomDim r <? Dimension.L then set_geomDim Dimension.L r else r
      else rg1 in
    if typeId_eqb (getGeometryTypeId elem) GEOS_POLYGON then
      let r := set_hasAreas true rg2 in
      if geomDim r <? Dimension.A then set_geomDim Dimension.A r else r
    else rg2.

Definition analyzeDimensions (rg : RelateGeometry) : option RelateGeometry :=
  if isGeomEmpty rg then Some rg
  else
    let typeId := getGeometryTypeId (geom rg) in
    if typeId_eqb typeId GEOS_POINT || typeId_eqb typeId GEOS_MULTIPOINT then
      Some (set_geomDim Dimension.P (set_hasPoints true rg))
    else if typeId_eqb typeId GEOS_LINESTRING || typeId_eqb typeId GEOS_MULTILINESTRING then
      Some (set_geomDim Dimension.L (set_hasLines true rg))
    else if typeId_eqb typeId GEOS_POLYGON || typeId_eqb typeId GEOS_MULTIPOLYGON then
      Some (set_geomDim Dimension.A (set_hasAreas true rg))
    else
      match static_cast_GeometryCollection (geom rg) with
      | None => None
      | Some col =>
          Some (fold_left (fun r elem => analyzeDimensions_elem elem r)
                          (getAllGeometries col) rg)
      end.

(** ** The constructor *)

(** The member initialisers, [isLineZeroLen] being given the value [zeroLen]
    of [isZeroLength(input)]; the members the initialiser list leaves out have
    their in-class defaults (no flag set, element id 0, no locator, no unique
    points). *)
Definition initialised (input : Geometry) (isPrepared : bool) (bnRule : BoundaryNodeRule)
  (zeroLen : bool) : RelateGeometry :=
  {| geom := input;
     m_isPrepared := isPrepared;
     geomEnv := getEnvelopeInternal input;
     boundaryNodeRule := bnRule;
     geomDim := getDimension input;
     isLineZeroLen := zeroLen;
     isGeomEmpty := isEmpty input;
     hasPoints := false;
     hasLines := false;
     hasAreas := false;
     elementId := 0;
     locator := None;
     uniquePoints := [] |}.

Definition new_RelateGeometry (input : Geometry) (isPrepared : bool)
  (bnRule : BoundaryNodeRule) : option RelateGeometry :=
  match isZeroLength input with
  | None => None
  | Some zeroLen => analyzeDimensions (initialised input isPrepared bnRule zeroLen)
  end.

(** ** Accessors *)

Definition getGeometry (rg : RelateGeometry) : Geometry := geom rg.
Definition isPrepared (rg : RelateGeometry) : bool := m_isPrepared rg.
Definition getEnvelope (rg : RelateGeometry) : Envelope := geomEnv rg.
Definition getDimension_ (rg : RelateGeometry) : Z := geomDim rg.

Definition hasDimension (rg : RelateGeometry) (dim : Z) : bool :=
  if dim =? Dimension.P then hasPoints rg
  else if dim =? Dimension.L then hasLines rg
  else if dim =? Dimension.A then hasAreas rg
  else false.

Definition getDimensionReal (rg : RelateGeometry) : Z :=
  if isGeomEmpty rg then Dimension.False
  else if (getDimension_ rg =? Dimension.L) && isLineZeroLen rg then Dimension.P
  else if hasAreas rg then Dimension.A
  else if hasLines rg then Dimension.L
  else Dimension.P.

Definition hasEdges (rg : RelateGeometry) : bool := hasLines rg || hasAreas rg.

Definition isPointsOrPolygons (rg : RelateGeometry) : bool :=
  let typeId := getGeometryTypeId (geom rg) in
  typeId_eqb typeId GEOS_POINT || typeId_eqb typeId GEOS_MULTIPOINT
  || typeId_eqb typeId GEOS_POLYGON || typeId_eqb typeId GEOS_MULTIPOLYGON.

Definition isPolygonal (rg : RelateGeometry) : bool :=
  let typeId := getGeometryTypeId (geom rg) in
  typeId_eqb typeId GEOS_POLYGON || typeId_eqb typeId GEOS_MULTIPOLYGON.

Definition isEmpty_ (rg : RelateGeometry) : bool := isGeomEmpty rg.

(** ** getLocator() and the operations that go through it *)

(** The object state the member functions below work on: the RelateGeometry
    itself ([this]) and the RelatePointLocator objects constructed so far
    ([new] appends one; a pointer to a locator is its index). *)
Record World : Type := mkWorld {
  this : RelateGeometry;
  locators : list RelatePointLocator
}.

(** [*p] for a locator pointer, and the assignment through it.  A pointer
    that [getLocator] returned is always in range. *)
Definition deref (w : World) (p : nat) : option RelatePointLocator :=
  nth_error (locators w) p.

Fixpoint store (objs : list RelatePointLocator) (p : nat) (o : RelatePointLocator)
  : list RelatePointLocator :=
  match objs, p with
  | [], _ => []
  | _ :: rest, O => o :: rest
  | a :: rest, S p' => a :: store rest p' o
  end.

Definition getLocator (w : World) : nat * World :=
  match locator (this w) with
  | Some p => (p, w)
  | None =>
      let obj := new_RelatePointLocator (geom (this w)) (m_isPrepared (this w))
                   (boundaryNodeRule (this w)) in
      let p := length (locators w) in
      (p, mkWorld (set_locator (Some p) (this w)) (locators w ++ [obj]))
  end.

(** [getLocator()->method(args)]: the call on the object behind the pointer.
    Beside the method's result it reports the pointer the call went through. *)
Definition call_locator {R : Type}
  (method : RelatePointLocator -> R * RelatePointLocator) (w : World)
  : option (R * nat * World) :=
  let (p, w1) := getLocator w in
  match deref w1 p with
  | None => None
  | Some obj =>
      let (r, obj') := method obj in
      Some (r, p, mkWorld (this w1) (store (locators w1) p obj'))
  end.

Definition isNodeInArea (nodePt : Coordinate) (parentPolygonal : option Geometry)
  (w : World) : option (bool * nat * World) :=
  match call_locator (fun l => Locator_locateNodeWithDim l nodePt parentPolygonal) w with
  | None => None
  | Some (dimLoc, p, w') => Some (dimLoc =? DimensionLocation_AREA_INTERIOR, p, w')
  end.

Definition locateLineEnd (p : Coordinate) (w : World) : option (Z * nat * World) :=
  call_locator (fun l => Locator_locateLineEnd l p) w.

Definition locateNode (pt : Coordinate) (parentPolygonal : option Geometry) (w : World)
  : option (Z * nat * World) :=
  call_locator (fun l => Locator_locateNode l pt parentPolygonal) w.

Definition locateAreaVertex (pt : Coordinate) (w : World) : option (Z * nat * World) :=
  locateNode pt None w.

Definition locateWithDim (pt : Coordinate) (w : World) : option (Z * nat * World) :=
  call_locator (fun l => Locator_locateWithDim l pt) w.

Definition hasBoundary (w : World) : option (bool * nat * World) :=
  call_locator Locator_hasBoundary w.

(** A call of one of the operations above, and a sequence of such calls on
    one RelateGeometry; [run] returns the locator pointer each call used. *)
Inductive LocatorCall : Type :=
| call_isNodeInArea (nodePt : Coordinate) (parentPolygonal : option Geometry)
| call_locateLineEnd (p : Coordinate)
| call_locateAreaVertex (pt : Coordinate)
| call_locateNode (pt : Coordinate) (parentPolygonal : option Geometry)
| call_locateWithDim (pt : Coordinate)
| call_hasBoundary.

Definition forget {R : Type} (r : option (R * nat * World)) : option (nat * World) :=
  match r with
  | None => None
  | Some (_, p, w) => Some (p, w)
  end.

Definition perform (c : LocatorCall) (w : World) : option (nat * World) :=
  match c with
  | call_isNodeInArea pt par => forget (isNodeInArea pt par w)
  | call_locateLineEnd p => forget (locateLineEnd p w)
  | call_locateAreaVertex pt => forget (locateAreaVertex pt w)
  | call_locateNode pt par => forget (locateNode pt par w)
  | call_locateWithDim pt => forget (locateWithDim pt w)
  | call_hasBoundary => forget (hasBoundary w)
  end.

Fixpoint run (cs : list LocatorCall) (w : World) : option (list nat * World) :=
  match cs with
  | [] => Some ([], w)
  | c :: rest =>
      match perform c w with
      | None => None
      | Some (p, w1) =>
          match run rest w1 with
          | None => None
          | Some (ps, w2) => Some (p :: ps, w2)
          end
      end
  end.

(** ** getUniquePoints() *)

Definition createUniquePoints (rg : RelateGeometry) : ConstXYSet :=
  let pts := ComponentCoordinateExtracter_getCoordinates (geom rg) in
  XYSet_of_range pts.

Definition getUniquePoints (rg : RelateGeometry) : ConstXYSet * RelateGeometry :=
  let rg' :=
    if XYSet_empty (uniquePoints rg) then set_uniquePoints (createUniquePoints rg) rg
    else rg in
  (uniquePoints rg', rg').

(** ** extractSegmentStrings *)

(** What the extraction works on: [this] (for [elementId]) and the vector
    [segStrings] that is passed by reference. *)
Definition Extraction : Type := (RelateGeometry * list RelateSegmentString)%type.

Definition env_intersects (env : option Envelope) (other : Envelope) : bool :=
  match env with
  | None => true
  | Some e => Envelope_intersects e other
  end.

Definition extractRingToSegmentString (isA : bool) (ring : CoordinateSequence)
  (ringId : Z) (env : option Envelope) (parentPoly : Geometry) (st : Extraction)
  : Extraction :=
  let (rg, segStrings) := st in
  if isEmpty (LinearRing ring) then st
  else
    match env with
    | Some e =>
        if negb (Envelope_intersects e (getEnvelopeInternal (LinearRing ring))) then st
        else (rg, segStrings ++ [createRing ring isA (elementId rg) ringId parentPoly])
    | None => (rg, segStrings ++ [createRing ring isA (elementId rg) ringId parentPoly])
    end.

(** The loop [for (i = 0; i < poly->getNumInteriorRing(); i++)] over the
    holes that are left, [i] being the index of the first of them. *)
Fixpoint extractHoles (isA : bool) (holes : list CoordinateSequence) (i : Z)
  (env : option Envelope) (parentPoly : Geometry) (st : Extraction) : Extraction :=
  match holes with
  | [] => st
  | h :: rest =>
      extractHoles isA rest (i + 1) env parentPoly
        (extractRingToSegmentString isA h (i + 1) env parentPoly st)
  end.

Definition extractSegmentStringsFromAtomic (isA : bool) (p_geom : Geometry)
  (parentPolygonal : option Geometry) (env : option Envelope) (st : Extraction)
  : Extraction :=
  let (rg, segStrings) := st in
  if isEmpty p_geom then st
  else
    let doExtract :=
      match env with
      | None => true
      | Some e => Envelope_intersects e (getEnvelopeInternal p_geom)
      end in
    if negb doExtract then st
    else
      let rg := set_elementId (elementId rg + 1) rg in
      match p_geom with
      | LineString cs => (rg, segStrings ++ [createLine cs isA (elementId rg)])
      | Polygon shell holes =>
          let parentPoly :=
            match parentPolygonal with
            | Some mp => mp
            | None => p_geom
            end in
          extractHoles isA holes 0 env parentPoly
            (extractRingToSegmentString isA shell 0 env parentPoly (rg, segStrings))
      | _ => (rg, segStrings)
      end.

(** One iteration of the loop of [extractSegmentStrings] over the elements,
    [recurse] being the function itself. *)
Definition extractElement (recurse : Geometry -> Extraction -> Extraction)
  (isA : bool) (env : option Envelope) (parentPolygonal : option Geometry)
  (g : Geometry) (st : Extraction) : Extraction :=
  if typeId_eqb (getGeometryTypeId g) GEOS_GEOMETRYCOLLECTION then recurse g st
  else extractSegmentStringsFromAtomic isA g parentPolygonal env st.

Definition parentPolygonalOf (p_geom : Geometry) : option Geometry :=
  if typeId_eqb (getGeometryTypeId p_geom) GEOS_MULTIPOLYGON then Some p_geom else None.

(** The private [extractSegmentStrings(isA, env, p_geom, segStrings)].  The
    loop runs over [getGeometryN(i)] for [i < getNumGeometries()]: the
    elements of a collection, and the geometry itself when it is no
    collection (which has one element then, that is no GeometryCollection). *)
Fixpoint extractSegmentStrings_ (isA : bool) (env : option Envelope) (p_geom : Geometry)
  (st : Extraction) {struct p_geom} : Extraction :=
  let parentPolygonal := parentPolygonalOf p_geom in
  let loop :=
    fix loop (gs : list Geometry) (st : Extraction) {struct gs} : Extraction :=
      match gs with
      | [] => st
      | g :: rest =>
          loop rest
            (match g with
             | GeometryCollection _ => extractSegmentStrings_ isA env g st
             | _ => extractSegmentStringsFromAtomic isA g parentPolygonal env st
             end)
      end in
  match p_geom with
  | MultiPoint gs | MultiLineString gs | MultiPolygon gs | GeometryCollection gs =>
      loop gs st
  | _ => extractSegmentStringsFromAtomic isA p_geom parentPolygonal env st
  end.

(** The public [extractSegmentStrings(isA, env)]: the segment strings and the
    RelateGeometry as the call leaves it. *)
Definition extractSegmentStrings (isA : bool) (env : option Envelope)
  (rg : RelateGeometry) : list RelateSegmentString * RelateGeometry :=
  let (rg', segStrings) := extractSegmentStrings_ isA env (geom rg) (rg, []) in
  (segStrings, rg').

End RelateGeometry.
End relateng.

(* ====================================================================== *)
(** * Stand-ins for the collaborators                                      *)
(* ====================================================================== *)

(** An implementation of [Collaborators] to run the definitions on concrete
    geometries: the envelope is the bounding box of the coordinates, the
    boundary node rule one of the four names, and the point locator an object
    that answers EXTERIOR (2) to every query.  The theorems below hold for
    every implementation; this one only serves their instances. *)
Module standin.
Import geom relateng.

Record Box : Type := mkBox { minx : double; maxx : double; miny : double; maxy : double }.

Definition fmin (a b : double) : double := if SFltb b a then b else a.
Definition fmax (a b : double) : double := if SFltb a b then b else a.

Definition expandToInclude (e : option Box) (p : Coordinate) : option Box :=
  match e with
  | None => Some (mkBox (x p) (x p) (y p) (y p))
  | Some b => Some (mkBox (fmin (minx b) (x p)) (fmax (maxx b) (x p))
                          (fmin (miny b) (y p)) (fmax (maxy b) (y p)))
  end.

Definition boxOf (pts : list Coordinate) : option Box := fold_left expandToInclude pts None.

Fixpoint coordinatesOf (g : Geometry) : list Coordinate :=
  match g with
  | Point cs | LineString cs | LinearRing cs => cs_coords cs
  | Polygon sh _ => cs_coords sh
  | MultiPoint gs | MultiLineString gs | MultiPolygon gs | GeometryCollection gs =>
      flat_map coordinatesOf gs
  end.

Definition intersects (a b : option Box) : bool :=
  match a, b with
  | Some a, Some b =>
      SFleb (minx b) (maxx a) && SFleb (minx a) (maxx b)
      && SFleb (miny b) (maxy a) && SFleb (miny a) (maxy b)
  | _, _ => false
  end.

Inductive Rule : Type := Mod2 | Endpoint | MultivalentEndpoint | MonovalentEndpoint.

Definition firstCoordinate (g : Geometry) : list Coordinate :=
  match g with
  | Point cs | LineString cs | LinearRing cs => firstn 1 (cs_coords cs)
  | _ => []
  end.

#[export] Instance collaborators : Collaborators := {|
  Envelope := option Box;
  getEnvelopeInternal := fun g => boxOf (coordinatesOf g);
  Envelope_intersects := intersects;
  BoundaryNodeRule := Rule;
  RelatePointLocator := (Geometry * bool * Rule)%type;
  new_RelatePointLocator := fun g p r => (g, p, r);
  Locator_locateNodeWithDim := fun l _ _ => (2, l);
  Locator_locateLineEnd := fun l _ => (2, l);
  Locator_locateNode := fun l _ _ => (2, l);
  Locator_locateWithDim := fun l _ => (2, l);
  Locator_hasBoundary := fun l => (false, l);
  DimensionLocation_AREA_INTERIOR := 120;
  ComponentCoordinateExtracter_getCoordinates :=
    fun g => flat_map firstCoordinate (components g)
|}.

(** The rectangle [x0, x1] x [y0, y1] as a filter envelope. *)
Definition rectangle (x0 x1 y0 y1 : Z) : option (@Envelope collaborators) :=
  Some (Some (mkBox (dbl x0) (dbl x1) (dbl y0) (dbl y1))).

End standin.

(* ====================================================================== *)
(** * geos::io — WKBWriter                                                 *)
(* ====================================================================== *)

Module io.
Import geom.

(** A byte of the output stream, as a number in [0, 256). *)
Definition byte : Type := Z.

(** The value of the C++ [int] a number converts to. *)
Definition to_int (n : Z) : Z := (n + 2147483648) mod 4294967296 - 2147483648.

(** ByteOrderValues::putInt and ByteOrderValues::putDouble (their code is
    outside these files): the bytes they store at the start of the writer's
    buffer for a value and a byte order, 4 for an int and 8 for a double.
    WKBWriter writes that many bytes of the buffer to the stream. *)
Class ByteOrderValues : Type := {
  putInt : Z -> Z -> list byte;
  putDouble : double -> Z -> list byte;
  putInt_size : forall val byteOrder, length (putInt val byteOrder) = 4%nat;
  putDouble_size : forall val byteOrder, length (putDouble val byteOrder) = 8%nat
}.

(** WKBConstants (WKBConstants.h is outside these files; the OGC values). *)
Module WKBConstants.
Definition wkbXDR : Z := 0.
Definition wkbNDR : Z := 1.
Definition wkbPoint : Z := 1.
Definition wkbLineString : Z := 2.
Definition wkbPolygon : Z := 3.
Definition wkbMultiPoint : Z := 4.
Definition wkbMultiLineString : Z := 5.
Definition wkbMultiPolygon : Z := 6.
Definition wkbGeometryCollection : Z := 7.
End WKBConstants.

(** The ordinate indices of CoordinateSequence: [enum { X, Y, Z }]. *)
Module Ordinate.
Inductive t : Type := X | Y | Z.
End Ordinate.

(** CoordinateSequence::getOrdinate, getX and getY. *)
Definition getOrdinate (cs : CoordinateSequence) (index : nat) (ordinateIndex : Ordinate.t)
  : double :=
  match ordinateIndex with
  | Ordinate.X => x (getAt cs index)
  | Ordinate.Y => y (getAt cs index)
  | Ordinate.Z => z (getAt cs index)
  end.
Definition getX (cs : CoordinateSequence) (index : nat) : double :=
  getOrdinate cs index Ordinate.X.
Definition getY (cs : CoordinateSequence) (index : nat) : double :=
  getOrdinate cs index Ordinate.Y.

Inductive Exception : Type :=
| IllegalArgumentException (msg : string).

(** The data members of WKBWriter ([outStream] is the state below). *)
Record WKBWriter : Type := mkWKBWriter {
  outputDimension : Z;
  byteOrder : Z
}.

(** WKBWriter::WKBWriter(int dims, int bo). *)
Definition new_WKBWriter (dims bo : Z) : Exception + WKBWriter :=
  if (dims <? 2) || (dims >? 3) then inl (IllegalArgumentException "WKB output dimension must be 2 or 3")
  else inr (mkWKBWriter dims bo).

(** A member function that writes: from the bytes already on [*outStream] to
    an exception or the bytes on it afterwards. *)
Definition Write : Type := list byte -> Exception + list byte.

Definition emit (bytes : list byte) : Write := fun os => inr (os ++ bytes).
Definition throw (e : Exception) : Write := fun _ => inl e.
Definition done : Write := fun os => inr os.
Definition andThen (a b : Write) : Write :=
  fun os => match a os with inl e => inl e | inr os' => b os' end.

Declare Scope write_scope.
Delimit Scope write_scope with write.
Notation "a ;; b" := (andThen a b) (at level 61, right associativity) : write_scope.
Local Open Scope write_scope.

(** [for (i = 0; i < n; i++) body(i)] over the items the index selects. *)
Fixpoint forEach {A : Type} (body : A -> Write) (items : list A) : Write :=
  match items with
  | [] => done
  | a :: rest => body a ;; forEach body rest
  end.

Section Writer.
Context {bov : ByteOrderValues}.
Variable w : WKBWriter.

(** [outStream->write(&byteOrder, 1)]: the first byte of the int in memory,
    its low byte on a little-endian host. *)
Definition writeByteOrder : Write := emit [byteOrder w mod 256].

Definition writeInt (val : Z) : Write := emit (putInt val (byteOrder w)).

Definition writeGeometryType (typeId : Z) : Write :=
  let flag3D := if outputDimension w =? 3 then to_int 2147483648 else 0 in
  let typeInt := Z.lor typeId flag3D in
  writeInt typeInt.

Definition writeCoordinate (cs : CoordinateSequence) (idx : nat) (is3d : bool) : Write :=
  emit (putDouble (getX cs idx) (byteOrder w)) ;;
  emit (putDouble (getY cs idx) (byteOrder w)) ;;
  if is3d then emit (putDouble (getOrdinate cs idx Ordinate.X) (byteOrder w))
  else done.

Definition writeCoordinateSequence (cs : CoordinateSequence) (sized : bool) : Write :=
  let size := getSize cs in
  let is3d := (cs_dimension cs >? 2) && (outputDimension w >? 2) in
  (if sized then writeInt (Z.of_nat size) else done) ;;
  forEach (fun i => writeCoordinate cs i is3d) (seq 0 size).

Definition writePoint (coordinates : CoordinateSequence) : Write :=
  if isEmpty (Point coordinates) then throw (IllegalArgumentException "Empty Points cannot be represented in WKB")
  else
    writeByteOrder ;;
    writeGeometryType WKBConstants.wkbPoint ;;
    writeCoordinateSequence coordinates false.

Definition writeLineString (points : CoordinateSequence) : Write :=
  writeByteOrder ;;
  writeGeometryType WKBConstants.wkbLineString ;;
  writeCoordinateSequence points true.

Definition writePolygon (shell : CoordinateSequence) (holes : list CoordinateSequence)
  : Write :=
  writeByteOrder ;;
  writeGeometryType WKBConstants.wkbPolygon ;;
  let nholes := Z.of_nat (length holes) in
  writeInt (nholes + 1) ;;
  writeCoordinateSequence shell true ;;
  forEach (fun cs => writeCoordinateSequence cs true) holes.

(** WKBWriter::write, with writeGeometryCollection (which calls it back on
    every element) as the inner loop. *)
Fixpoint write (g : Geometry) : Write :=
  let writeGeometryCollection (geometries : list Geometry) (wkbtype : Z) : Write :=
    writeByteOrder ;;
    writeGeometryType wkbtype ;;
    writeInt (Z.of_nat (length geometries)) ;;
    (fix elems (gs : list Geometry) : Write :=
       match gs with
       | [] => done
       | elem :: rest => write elem ;; elems rest
       end) geometries in
  match g with
  | Point cs => writePoint cs
  | LineString cs | LinearRing cs => writeLineString cs
  | Polygon shell holes => writePolygon shell holes
  | MultiPoint gs => writeGeometryCollection gs WKBConstants.wkbMultiPoint
  | MultiLineString gs => writeGeometryCollection gs WKBConstants.wkbMultiLineString
  | MultiPolygon gs => writeGeometryCollection gs WKBConstants.wkbMultiPolygon
  | GeometryCollection gs => writeGeometryCollection gs WKBConstants.wkbGeometryCollection
  end.

Definition writeGeometryCollection (geometries : list Geometry) (wkbtype : Z) : Write :=
  writeByteOrder ;;
  writeGeometryType wkbtype ;;
  writeInt (Z.of_nat (length geometries)) ;;
  forEach write geometries.

End Writer.

(** Whether a geometry contains an empty Point, at any depth. *)
Fixpoint containsEmptyPoint (g : Geometry) : bool :=
  match g with
  | Point cs => cs_isEmpty cs
  | LineString _ | LinearRing _ | Polygon _ _ => false
  | MultiPoint gs | MultiLineString gs | MultiPolygon gs | GeometryCollection gs =>
      existsb containsEmptyPoint gs
  end.

Definition throws (r : Exception + list byte) : bool :=
  match r with inl _ => true | inr _ => false end.
Definition throws_ctor (r : Exception + WKBWriter) : bool :=
  match r with inl _ => true | inr _ => false end.

(** An implementation of ByteOrderValues for the instances below: the
    two's-complement bytes of an int and the IEEE-754 binary64 bytes of a
    double, most significant byte first for byte order 0 (XDR) and least
    significant first otherwise. *)
Module standin.

Definition bytesOf (n : nat) (v : Z) : list byte :=
  map (fun i => Z.shiftr v (8 * Z.of_nat i) mod 256) (seq 0 n).

Definition ordered (byteOrder : Z) (littleEndian : list byte) : list byte :=
  if byteOrder =? 0 then rev littleEndian else littleEndian.

Definition doubleToLongBits (d : double) : Z :=
  let sign (s : bool) := if s then Z.shiftl 1 63 else 0 in
  match d with
  | S754_zero s => sign s
  | S754_infinity s => sign s + Z.shiftl 2047 52
  | S754_nan => Z.shiftl 4095 51
  | S754_finite s m e =>
      if Zpos m <? Z.shiftl 1 52 then sign s + Zpos m
      else sign s + Z.shiftl (e + 1075) 52 + (Zpos m - Z.shiftl 1 52)
  end.

Lemma bytesOf_length n v : length (bytesOf n v) = n.
Proof. unfold bytesOf. now rewrite length_map, length_seq. Qed.

Lemma ordered_length bo l : length (ordered bo l) = length l.
Proof. unfold ordered. destruct (bo =? 0); [apply length_rev | reflexivity]. Qed.

#[export] Instance byteOrderValues : ByteOrderValues := {|
  putInt := fun val bo => ordered bo (bytesOf 4 val);
  putDouble := fun val bo => ordered bo (bytesOf 8 (doubleToLongBits val));
  putInt_size := fun val bo => eq_trans (ordered_length bo _) (bytesOf_length 4 val);
  putDouble_size := fun val bo => eq_trans (ordered_length bo _) (bytesOf_length 8 _)
|}.

End standin.

End io.

(* ====================================================================== *)
(** * Properties of RelateGeometry                                         *)
(* ====================================================================== *)

Module RelateGeometryTheory.
Import geom relateng.

(** ** Induction over the geometry hierarchy *)

Section GeometryInduction.
Variable P : Geometry -> Prop.
Hypothesis HPoint : forall cs, P (Point cs).
Hypothesis HLineString : forall cs, P (LineString cs).
Hypothesis HLinearRing : forall cs, P (LinearRing cs).
Hypothesis HPolygon : forall sh hs, P (Polygon sh hs).
Hypothesis HMultiPoint : forall gs, Forall P gs -> P (MultiPoint gs).
Hypothesis HMultiLineString : forall gs, Forall P gs -> P (MultiLineString gs).
Hypothesis HMultiPolygon : forall gs, Forall P gs -> P (MultiPolygon gs).
Hypothesis HGeometryCollection : forall gs, Forall P gs -> P (GeometryCollection gs).

Fixpoint Geometry_nested_ind (g : Geometry) : P g :=
  let all :=
    fix all (gs : list Geometry) : Forall P gs :=
      match gs with
      | [] => Forall_nil P
      | e :: rest => Forall_cons e (Geometry_nested_ind e) (all rest)
      end in
  match g with
  | Point cs => HPoint cs
  | LineString cs => HLineString cs
  | LinearRing cs => HLinearRing cs
  | Polygon sh hs => HPolygon sh hs
  | MultiPoint gs => HMultiPoint gs (all gs)
  | MultiLineString gs => HMultiLineString gs (all gs)
  | MultiPolygon gs => HMultiPolygon gs (all gs)
  | GeometryCollection gs => HGeometryCollection gs (all gs)
  end.
End GeometryInduction.

(** ** Equality of doubles and of coordinates *)

Lemma double_eq_refl_left (a b : double) :
  double_eq a b = true -> double_eq a a = true.
Proof.
  unfold double_eq, SFeqb.
  destruct a as [sa | sa | | sa ma ea], b as [sb | sb | | sb mb eb]; simpl;
    intros H; rewrite ?Z.compare_refl, ?Pos.compare_cont_refl;
    repeat match goal with s : bool |- _ => destruct s end;
    simpl in *; congruence.
Qed.

Lemma equals2D_refl_left (p q : Coordinate) :
  equals2D p q = true -> equals2D p p = true.
Proof.
  unfold equals2D. rewrite !andb_true_iff. intros [Hx Hy].
  split; eapply double_eq_refl_left; eassumption.
Qed.

(** ** The zero-length test of a line *)

Lemma isZeroLength_loop_true (line : CoordinateSequence) (p0 : Coordinate) :
  forall steps i,
    isZeroLength_loop line p0 i steps = true <->
    (forall k, (i <= k < i + steps)%nat -> equals2D p0 (getAt line k) = true).
Proof.
  induction steps as [| steps IH]; intros i; simpl.
  - split; [intros _ k Hk; lia | reflexivity].
  - destruct (equals2D p0 (getAt line i)) eqn:E; simpl.
    + rewrite IH. split; intros H k Hk.
      * destruct (Nat.eq_dec k i) as [-> | Hne]; [exact E | apply H; lia].
      * apply H; lia.
    + split; [discriminate |].
      intros H. rewrite <- E. apply H. lia.
Qed.

(** C1.  A LineString with at least two points is zero-length exactly when
    every one of its vertices is 2D-equal to the first vertex (the loop
    compares vertex 0 with each vertex [i], not with vertex 1 every time); a
    LineString with fewer than two points is zero-length. *)
Theorem isZeroLength_LineString_iff_all_equal_first (line : CoordinateSequence) :
  ((2 <= getSize line)%nat ->
     (isZeroLength_LineString line = true <->
      forall i, (i < getSize line)%nat ->
                equals2D (getAt line 0) (getAt line i) = true))
  /\ ((getSize line < 2)%nat -> isZeroLength_LineString line = true).
Proof.
  unfold isZeroLength_LineString. split; intros Hn.
  - destruct (Nat.leb_spec 2 (getSize line)) as [_ | Hlt]; [| lia].
    rewrite isZeroLength_loop_true. split; intros H i Hi.
    + destruct i as [| i]; [| apply H; lia].
      apply equals2D_refl_left with (q := getAt line 1). apply H. lia.
    + apply H. lia.
  - destruct (Nat.leb_spec 2 (getSize line)) as [Hle | _]; [lia | reflexivity].
Qed.

(** An instance: LINESTRING (3 4, 3 4, 3 4) has three points and is
    zero-length, so its last vertex is equal to the first. *)
Lemma isZeroLength_LineString_witness :
  (2 <= getSize (seq2 [xy 3 4; xy 3 4; xy 3 4]))%nat
  /\ isZeroLength_LineString (seq2 [xy 3 4; xy 3 4; xy 3 4]) = true
  /\ equals2D (getAt (seq2 [xy 3 4; xy 3 4; xy 3 4]) 0)
              (getAt (seq2 [xy 3 4; xy 3 4; xy 3 4]) 2) = true.
Proof.
  assert (Hn : (2 <= getSize (seq2 [xy 3 4; xy 3 4; xy 3 4]))%nat)
    by (repeat constructor).
  split; [exact Hn |]. split; [reflexivity |].
  apply (proj1 (proj1 (isZeroLength_LineString_iff_all_equal_first
                         (seq2 [xy 3 4; xy 3 4; xy 3 4])) Hn)).
  - reflexivity.
  - repeat constructor.
Defined.

Example isZeroLength_LineString_differs_late :
  isZeroLength_LineString (seq2 [xy 0 0; xy 0 0; xy 5 0]) = false.
Proof. reflexivity. Qed.

Example isZeroLength_LineString_single_point :
  isZeroLength_LineString (seq2 [xy 7 7]) = true.
Proof. reflexivity. Qed.

(** ** The zero-length test of a geometry *)

Section Wrapper.
Context {collab : Collaborators}.

Lemma isZeroLength_elems_forallb (elems : list Geometry) :
  isZeroLength_elems elems =
  forallb (fun elem => match elem with
                       | LineString line => isZeroLength_LineString line
                       | _ => true
                       end) elems.
Proof.
  induction elems as [| elem rest IH]; [reflexivity |].
  simpl. destruct elem; simpl; try exact IH.
  destruct (isZeroLength_LineString points); simpl; [exact IH | reflexivity].
Qed.

(** On a collection the cast is the identity, and the test is the
    conjunction of the line tests over the LineString components. *)
Lemma isZeroLength_collection (g : Geometry) (col : list Geometry) :
  static_cast_GeometryCollection g = Some col ->
  isZeroLength g = Some (isZeroLength_elems (getAllGeometries col)).
Proof. unfold isZeroLength. intros ->. reflexivity. Qed.

(** Whatever the line, the geometry-level test of a LineString goes through
    the cast to GeometryCollection, which is undefined for it. *)
Lemma isZeroLength_LineString_input (line : CoordinateSequence) :
  isZeroLength (LineString line) = None.
Proof. reflexivity. Qed.

(** C2.  On the input LINESTRING (0 0, 1 1) the geometry-level test has no
    defined result (the LineString is cast to GeometryCollection and
    [getAllGeometries] is called on it), where the LineString-level test
    answers false; [analyzeDimensions], on the same input, looks at the type
    id before it casts. *)
Theorem isZeroLength_Geometry_undefined_on_LineString :
  isZeroLength (LineString (seq2 [xy 0 0; xy 1 1])) = None
  /\ isZeroLength_LineString (seq2 [xy 0 0; xy 1 1]) = false
  /\ static_cast_GeometryCollection (LineString (seq2 [xy 0 0; xy 1 1])) = None.
Proof. repeat split. Qed.

(** ** analyzeDimensions and the constructor: what is left untouched *)

Lemma analyzeDimensions_elem_frame (elem : Geometry) (rg : RelateGeometry) :
  let rg' := analyzeDimensions_elem elem rg in
  geom rg' = geom rg /\ m_isPrepared rg' = m_isPrepared rg
  /\ isLineZeroLen rg' = isLineZeroLen rg /\ isGeomEmpty rg' = isGeomEmpty rg
  /\ elementId rg' = elementId rg /\ locator rg' = locator rg
  /\ uniquePoints rg' = uniquePoints rg.
Proof.
  unfold analyzeDimensions_elem.
  destruct (isEmpty elem); [repeat split |].
  destruct elem; simpl;
    repeat match goal with
           | |- context [if ?c then _ else _] => destruct c; simpl
           end; repeat split.
Qed.

Lemma analyzeDimensions_loop_frame (elems : list Geometry) :
  forall rg,
    let rg' := fold_left (fun r elem => analyzeDimensions_elem elem r) elems rg in
    geom rg' = geom rg /\ m_isPrepared rg' = m_isPrepared rg
    /\ isLineZeroLen rg' = isLineZeroLen rg /\ isGeomEmpty rg' = isGeomEmpty rg
    /\ elementId rg' = elementId rg /\ locator rg' = locator rg
    /\ uniquePoints rg' = uniquePoints rg.
Proof.
  induction elems as [| elem rest IH]; intros rg; simpl; [repeat split |].
  specialize (IH (analyzeDimensions_elem elem rg)). simpl in IH.
  pose proof (analyzeDimensions_elem_frame elem rg) as F. simpl in F.
  intuition congruence.
Qed.

Lemma analyzeDimensions_frame (rg rg' : RelateGeometry) :
  analyzeDimensions rg = Some rg' ->
  geom rg' = geom rg /\ m_isPrepared rg' = m_isPrepared rg
  /\ isLineZeroLen rg' = isLineZeroLen rg /\ isGeomEmpty rg' = isGeomEmpty rg
  /\ elementId rg' = elementId rg /\ locator rg' = locator rg
  /\ uniquePoints rg' = uniquePoints rg.
Proof.
  unfold analyzeDimensions.
  destruct (isGeomEmpty rg) eqn:E; [intros [= <-]; repeat split; assumption |].
  repeat match goal with
         | |- context [if ?c then _ else _] => destruct c
         end; try (intros [= <-]; repeat split; assumption).
  destruct (static_cast_GeometryCollection (geom rg)) as [col |]; [| discriminate].
  intros [= <-]. pose proof (analyzeDimensions_loop_frame (getAllGeometries col) rg) as F.
  simpl in F. rewrite E in F. exact F.
Qed.

Lemma new_RelateGeometry_caches (input : Geometry) (isPrepared : bool)
  (bnRule : BoundaryNodeRule) (rg : RelateGeometry) :
  new_RelateGeometry input isPrepared bnRule = Some rg ->
  geom rg = input /\ isGeomEmpty rg = isEmpty input
  /\ isZeroLength input = Some (isLineZeroLen rg)
  /\ elementId rg = 0 /\ locator rg = None /\ uniquePoints rg = [].
Proof.
  unfold new_RelateGeometry.
  destruct (isZeroLength input) as [zeroLen |]; [| discriminate].
  intros H. apply analyzeDimensions_frame in H. simpl in H.
  destruct H as (-> & _ & -> & -> & -> & -> & ->). repeat split.
Qed.

(** ** analyzeDimensions: the dimensions present *)

(** The words of the claim: the non-empty elements of the input (reached
    through collections at any depth), whether one of them has a given
    dimension, and the largest of their dimensions. *)
Definition nonEmptyElements (input : Geometry) : list Geometry :=
  filter (fun e => negb (isEmpty e)) (components input).

Definition containsDimension (d : Z) (input : Geometry) : bool :=
  existsb (fun e => getDimension e =? d) (nonEmptyElements input).

Definition maxDimension (input : Geometry) : Z :=
  fold_right Z.max Dimension.False (map getDimension (nonEmptyElements input)).

Definition present (kind : Geometry -> bool) (elems : list Geometry) : bool :=
  existsb (fun e => negb (isEmpty e) && kind e) elems.

Ltac dims_lia :=
  cbn [getDimension fold_right geomDim initialised] in *;
  unfold Dimension.False, Dimension.P, Dimension.L, Dimension.A in *; lia.

Lemma analyzeDimensions_elem_flags (elem : Geometry) (rg : RelateGeometry) :
  let rg' := analyzeDimensions_elem elem rg in
  hasPoints rg' = hasPoints rg || (negb (isEmpty elem) && isPoint elem)
  /\ hasLines rg' = hasLines rg || (negb (isEmpty elem) && isLineString elem)
  /\ hasAreas rg' = hasAreas rg || (negb (isEmpty elem) && isPolygon elem)
  /\ (getDimension elem <= geomDim rg -> geomDim rg' = geomDim rg).
Proof.
  unfold analyzeDimensions_elem.
  destruct (isEmpty elem); simpl.
  - rewrite !orb_false_r. repeat split.
  - destruct elem; simpl; rewrite ?orb_false_r, ?orb_true_r; repeat split;
      try (destruct (geomDim rg <? _); reflexivity);
      unfold Dimension.P, Dimension.L, Dimension.A; intros Hd;
      repeat match goal with
             | |- context [if ?a <? ?b then _ else _] =>
                 destruct (Z.ltb_spec a b); simpl in *; try lia
             end; reflexivity.
Qed.

Lemma analyzeDimensions_loop_flags (elems : list Geometry) :
  forall rg,
    let rg' := fold_left (fun r elem => analyzeDimensions_elem elem r) elems rg in
    hasPoints rg' = hasPoints rg || present isPoint elems
    /\ hasLines rg' = hasLines rg || present isLineString elems
    /\ hasAreas rg' = hasAreas rg || present isPolygon elems
    /\ (Forall (fun e => getDimension e <= geomDim rg) elems -> geomDim rg' = geomDim rg).
Proof.
  induction elems as [| elem rest IH]; intros rg; simpl.
  - rewrite !orb_false_r. repeat split.
  - destruct (analyzeDimensions_elem_flags elem rg) as (Hp & Hl & Ha & Hd).
    destruct (IH (analyzeDimensions_elem elem rg)) as (Ip & Il & Ia & Id).
    simpl in *. rewrite Ip, Il, Ia, Hp, Hl, Ha, !orb_assoc. repeat split.
    intros Hall. inversion Hall as [| ? ? Hhd Htl]; subst.
    specialize (Hd Hhd). rewrite Id; [exact Hd |]. rewrite Hd. exact Htl.
Qed.

(** The components of a geometry are atomic; without a LinearRing in it they
    are Points, LineStrings and Polygons, told apart by their dimension. *)
Lemma components_ringFree (g : Geometry) :
  ringFree g = true ->
  Forall (fun e => isPoint e || isLineString e || isPolygon e = true) (components g).
Proof.
  induction g as [cs | cs | cs | sh hs | gs IH | gs IH | gs IH | gs IH]
    using Geometry_nested_ind; simpl; intros Hr;
    try (repeat constructor; fail); try discriminate.
  all: rewrite forallb_forall in Hr; rewrite Forall_forall in IH |- *;
       intros e He; apply in_flat_map in He; destruct He as (c & Hc & He);
       specialize (IH c Hc (Hr c Hc)); rewrite Forall_forall in IH; auto.
Qed.

Lemma components_dimension_le (g : Geometry) :
  well_typed g = true ->
  Forall (fun e => getDimension e <= getDimension g) (components g).
Proof.
  induction g as [cs | cs | cs | sh hs | gs IH | gs IH | gs IH | gs IH]
    using Geometry_nested_ind; simpl; intros Hw;
    try (repeat constructor; reflexivity).
  1-3: rewrite forallb_forall in Hw; rewrite Forall_forall;
       intros e He; apply in_flat_map in He; destruct He as (c & Hc & He);
       specialize (Hw c Hc); destruct c; try discriminate;
       destruct He as [<- | []]; simpl; reflexivity.
  rewrite forallb_forall in Hw. rewrite Forall_forall in IH |- *.
  intros e He. apply in_flat_map in He. destruct He as (c & Hc & He).
  specialize (IH c Hc (Hw c Hc)). rewrite Forall_forall in IH.
  specialize (IH e He).
  assert (Hmax : getDimension c <=
                 fold_right (fun e d => Z.max (getDimension e) d) Dimension.False gs).
  { clear - Hc. induction gs as [| a gs IHgs]; [destruct Hc |].
    simpl. destruct Hc as [-> | Hc]; [lia | specialize (IHgs Hc); lia]. }
  lia.
Qed.

Lemma containsDimension_present (input : Geometry) :
  ringFree input = true ->
  containsDimension Dimension.P input = present isPoint (components input)
  /\ containsDimension Dimension.L input = present isLineString (components input)
  /\ containsDimension Dimension.A input = present isPolygon (components input).
Proof.
  intros Hr. apply components_ringFree in Hr.
  unfold containsDimension, nonEmptyElements, present.
  induction Hr as [| e rest He _ IH]; simpl; [repeat split |].
  destruct IH as (IHp & IHl & IHa).
  destruct (isEmpty e); simpl; [repeat split; assumption |].
  rewrite IHp, IHl, IHa.
  destruct e; simpl in He; try discriminate; repeat split.
Qed.

Lemma maxDimension_le (input : Geometry) :
  well_typed input = true -> maxDimension input <= Z.max Dimension.False (getDimension input).
Proof.
  intros Hw. apply components_dimension_le in Hw.
  unfold maxDimension, nonEmptyElements.
  induction Hw as [| e rest He _ IH]; simpl; [lia |].
  destruct (isEmpty e); simpl; lia.
Qed.

(** A typed collection (MultiPoint, MultiLineString, MultiPolygon) whose
    elements have the class [kind]: its components are its elements. *)
Lemma components_typed (kind : Geometry -> bool) (gs : list Geometry) :
  (forall e, kind e = true -> isAtomic e = true) ->
  forallb kind gs = true -> flat_map components gs = gs.
Proof.
  intros Hk Hall. induction gs as [| e rest IH]; [reflexivity |].
  simpl in Hall. apply andb_true_iff in Hall. destruct Hall as [He Hrest].
  simpl. rewrite (IH Hrest). specialize (Hk e He). destruct e; try discriminate; reflexivity.
Qed.

Lemma present_typed (kind other : Geometry -> bool) (gs : list Geometry) :
  forallb kind gs = true -> forallb isEmpty gs = false ->
  (forall e, kind e = true -> other e = false) ->
  present kind gs = true /\ present other gs = false.
Proof.
  intros Hall Hne Hdis. unfold present.
  induction gs as [| e rest IH]; [discriminate |].
  simpl in *. apply andb_true_iff in Hall. destruct Hall as [He Hrest].
  rewrite He, (Hdis e He), andb_false_r, andb_true_r. simpl.
  destruct (isEmpty e); simpl in *.
  - apply IH; assumption.
  - split; [reflexivity |].
    clear - Hrest Hdis. induction rest as [| a rest IH]; [reflexivity |].
    simpl in *. apply andb_true_iff in Hrest. destruct Hrest as [Ha Hrest].
    rewrite (Hdis a Ha), andb_false_r. simpl. apply IH. exact Hrest.
Qed.

(** C4, as amended.  For a non-empty input made of Points, LineStrings and
    Polygons (each typed collection holding elements of its class),
    construction sets hasPoints, hasLines and hasAreas to whether the input
    contains a non-empty element of dimension P, L, A (recursing into
    collections, skipping empty elements), and it sets geomDim to
    [input->getDimension()], the maximum dimension of the elements with the
    empty ones counted: no less than the maximum over the non-empty ones. *)
Theorem analyzeDimensions_flags (input : Geometry) (isPrepared : bool)
  (bnRule : BoundaryNodeRule) (zeroLen : bool) :
  isEmpty input = false -> well_typed input = true -> ringFree input = true ->
  exists rg,
    analyzeDimensions (initialised input isPrepared bnRule zeroLen) = Some rg
    /\ hasPoints rg = containsDimension Dimension.P input
    /\ hasLines rg = containsDimension Dimension.L input
    /\ hasAreas rg = containsDimension Dimension.A input
    /\ geomDim rg = getDimension input
    /\ maxDimension input <= geomDim rg.
Proof.
  intros Hne Hw Hr.
  destruct (containsDimension_present input Hr) as (Cp & Cl & Ca).
  pose proof (maxDimension_le input Hw) as Hmax.
  assert (Hdim : Dimension.False <= getDimension input).
  { clear. destruct input; try dims_lia.
    induction geometries as [| a l IH]; dims_lia. }
  unfold analyzeDimensions. cbn [isGeomEmpty initialised geom]. rewrite Hne.
  rewrite Cp, Cl, Ca.
  destruct input as [cs | cs | cs | sh hs | gs | gs | gs | gs];
    cbn [getGeometryTypeId typeId_eqb orb static_cast_GeometryCollection];
    try discriminate.
  - (* Point *)
    eexists; split; [reflexivity |]. simpl in Hne |- *. unfold present. simpl.
    rewrite Hne. simpl. repeat split. dims_lia.
  - (* LineString *)
    eexists; split; [reflexivity |]. simpl in Hne |- *. unfold present. simpl.
    rewrite Hne. simpl. repeat split. dims_lia.
  - (* Polygon *)
    eexists; split; [reflexivity |]. simpl in Hne |- *. unfold present. simpl.
    rewrite Hne. simpl. repeat split. dims_lia.
  - (* MultiPoint *)
    eexists; split; [reflexivity |]. simpl in Hne, Hw. cbn [components].
    rewrite (components_typed isPoint gs) by (try assumption; intros [] ; easy).
    destruct (present_typed isPoint isLineString gs Hw Hne) as [-> ->];
      [intros []; easy |].
    destruct (present_typed isPoint isPolygon gs Hw Hne) as [_ ->];
      [intros []; easy |].
    simpl. repeat split. dims_lia.
  - (* MultiLineString *)
    eexists; split; [reflexivity |]. simpl in Hne, Hw. cbn [components].
    rewrite (components_typed isLineString gs) by (try assumption; intros [] ; easy).
    destruct (present_typed isLineString isPoint gs Hw Hne) as [-> ->];
      [intros []; easy |].
    destruct (present_typed isLineString isPolygon gs Hw Hne) as [_ ->];
      [intros []; easy |].
    simpl. repeat split. dims_lia.
  - (* MultiPolygon *)
    eexists; split; [reflexivity |]. simpl in Hne, Hw. cbn [components].
    rewrite (components_typed isPolygon gs) by (try assumption; intros [] ; easy).
    destruct (present_typed isPolygon isPoint gs Hw Hne) as [-> ->];
      [intros []; easy |].
    destruct (present_typed isPolygon isLineString gs Hw Hne) as [_ ->];
      [intros []; easy |].
    simpl. repeat split. dims_lia.
  - (* GeometryCollection *)
    eexists; split; [reflexivity |].
    pose proof (analyzeDimensions_loop_flags (getAllGeometries gs)
                  (initialised (GeometryCollection gs) isPrepared bnRule zeroLen)) as F.
    simpl in F. destruct F as (Fp & Fl & Fa & Fd).
    rewrite Fp, Fl, Fa. repeat split.
    + apply Fd. exact (components_dimension_le (GeometryCollection gs) Hw).
    + rewrite Fd by exact (components_dimension_le (GeometryCollection gs) Hw).
      dims_lia.
Qed.

(** ** extractSegmentStrings: the traversal *)

(** The elements the traversal hands to [extractSegmentStringsFromAtomic],
    in order, each with the geometry in whose loop it is handed over (the
    [p_geom] of that call of [extractSegmentStrings]): the elements of the
    geometry, those of a GeometryCollection among them in their place, and a
    geometry that is no collection as its own single element. *)
Fixpoint visited (p_geom : Geometry) : list (Geometry * Geometry) :=
  match p_geom with
  | MultiPoint gs | MultiLineString gs | MultiPolygon gs | GeometryCollection gs =>
      flat_map (fun g => match g with
                         | GeometryCollection _ => visited g
                         | _ => [(g, p_geom)]
                         end) gs
  | _ => [(p_geom, p_geom)]
  end.

(** No typed collection among the elements of a GeometryCollection (and
    only atomic elements in a typed collection). *)
Fixpoint plainlyNested (g : Geometry) : bool :=
  match g with
  | MultiPoint gs | MultiLineString gs | MultiPolygon gs => forallb isAtomic gs
  | GeometryCollection gs =>
      forallb (fun e => match e with
                        | GeometryCollection _ => plainlyNested e
                        | _ => isAtomic e
                        end) gs
  | _ => true
  end.

Lemma visited_elements_components (q : Geometry) (gs : list Geometry) :
  Forall (fun g => plainlyNested g = true -> map fst (visited g) = components g) gs ->
  forallb (fun e => match e with
                    | GeometryCollection _ => plainlyNested e
                    | _ => isAtomic e
                    end) gs = true ->
  map fst (flat_map (fun g => match g with
                              | GeometryCollection _ => visited g
                              | _ => [(g, q)]
                              end) gs)
  = flat_map components gs.
Proof.
  induction 1 as [| e rest He _ IH]; intros H; [reflexivity |].
  cbn [forallb flat_map] in *. apply andb_true_iff in H. destruct H as [Hhd Htl].
  rewrite map_app, (IH Htl). f_equal.
  destruct e; try discriminate; try reflexivity. exact (He Hhd).
Qed.

(** On such a geometry the traversal hands over the atomic components, the
    ones [getAllGeometries] lists. *)
Lemma visited_components (g : Geometry) :
  plainlyNested g = true -> map fst (visited g) = components g.
Proof.
  induction g as [cs | cs | cs | sh hs | gs IH | gs IH | gs IH | gs IH]
    using Geometry_nested_ind; intros H; try reflexivity;
    cbn [visited components plainlyNested] in *;
    apply visited_elements_components; try assumption.
  all: rewrite forallb_forall in H |- *; intros e He; specialize (H e He);
       destruct e; try discriminate; reflexivity.
Qed.

(** An element passes the filter: it is not empty and, when there is a
    filter envelope, its envelope intersects it.  The same for a ring. *)
Definition passes (env : option Envelope) (g : Geometry) : bool :=
  negb (isEmpty g) && env_intersects env (getEnvelopeInternal g).

Definition ringPasses (env : option Envelope) (ring : CoordinateSequence) : bool :=
  passes env (LinearRing ring).

(** Items numbered from [i] on. *)
Fixpoint numberFrom {A : Type} (i : Z) (items : list A) : list (Z * A) :=
  match items with
  | [] => []
  | a :: rest => (i, a) :: numberFrom (i + 1) rest
  end.

(** The rings of a polygon with their ring ids: 0 for the shell, i for the
    i-th hole, the holes counted from 1. *)
Definition rings (shell : CoordinateSequence) (holes : list CoordinateSequence)
  : list (Z * CoordinateSequence) :=
  (0, shell) :: numberFrom 1 holes.

Definition parentPolyOf (poly : Geometry) (parentPolygonal : option Geometry) : Geometry :=
  match parentPolygonal with
  | Some mp => mp
  | None => poly
  end.

(** The segment strings of one extracted element with element id [id]. *)
Definition segmentStringsOf (isA : bool) (env : option Envelope) (id : Z)
  (g : Geometry) (parentPolygonal : option Geometry) : list RelateSegmentString :=
  match g with
  | LineString cs => [createLine cs isA id]
  | Polygon shell holes =>
      map (fun r => createRing (snd r) isA id (fst r) (parentPolyOf g parentPolygonal))
          (filter (fun r => ringPasses env (snd r)) (rings shell holes))
  | _ => []
  end.

(** The segment strings of a numbered element [(id, (g, q))], [q] being the
    geometry that has [g] as its element. *)
Definition stringsOfNumbered (isA : bool) (env : option Envelope)
  (n : Z * (Geometry * Geometry)) : list RelateSegmentString :=
  segmentStringsOf isA env (fst n) (fst (snd n)) (parentPolygonalOf (snd (snd n))).

Definition extractedElements (env : option Envelope) (g : Geometry)
  : list (Geometry * Geometry) :=
  filter (fun a => passes env (fst a)) (visited g).

Lemma extractRingToSegmentString_eq isA ring ringId env parentPoly rg segStrings :
  extractRingToSegmentString isA ring ringId env parentPoly (rg, segStrings) =
  (rg, segStrings ++
       if ringPasses env ring
       then [createRing ring isA (elementId rg) ringId parentPoly] else []).
Proof.
  unfold extractRingToSegmentString, ringPasses, passes, env_intersects.
  cbn [isEmpty]. destruct (cs_isEmpty ring); simpl; [now rewrite app_nil_r |].
  destruct env as [e |]; simpl; [| reflexivity].
  destruct (Envelope_intersects e _); simpl; [reflexivity | now rewrite app_nil_r].
Qed.

Lemma extractHoles_eq isA env parentPoly (holes : list CoordinateSequence) :
  forall i rg segStrings,
    extractHoles isA holes i env parentPoly (rg, segStrings) =
    (rg, segStrings ++
         map (fun r => createRing (snd r) isA (elementId rg) (fst r) parentPoly)
             (filter (fun r => ringPasses env (snd r)) (numberFrom (i + 1) holes))).
Proof.
  induction holes as [| h rest IH]; intros i rg segStrings;
    cbn [extractHoles numberFrom filter snd].
  - simpl. now rewrite app_nil_r.
  - rewrite extractRingToSegmentString_eq, IH, <- app_assoc.
    destruct (ringPasses env h); reflexivity.
Qed.

Lemma extractSegmentStringsFromAtomic_eq isA g parentPolygonal env rg segStrings :
  extractSegmentStringsFromAtomic isA g parentPolygonal env (rg, segStrings) =
  if passes env g
  then (set_elementId (elementId rg + 1) rg,
        segStrings ++ segmentStringsOf isA env (elementId rg + 1) g parentPolygonal)
  else (rg, segStrings).
Proof.
  unfold extractSegmentStringsFromAtomic, passes, env_intersects.
  destruct (isEmpty g) eqn:Eg; cbn [negb andb]; [reflexivity |].
  destruct (match env with
            | Some e => Envelope_intersects e (getEnvelopeInternal g)
            | None => true
            end) eqn:Ei; cbn [negb]; [| reflexivity].
  destruct g; cbn [segmentStringsOf]; rewrite ?app_nil_r; try reflexivity.
  rewrite extractRingToSegmentString_eq, extractHoles_eq, <- app_assoc.
  unfold parentPolyOf, rings. cbn [filter snd fst elementId set_elementId Z.add].
  destruct (ringPasses env shell); reflexivity.
Qed.

(** The recursion of [extractSegmentStrings_] is the loop of the source over
    [getGeometryN(i)], [i < getNumGeometries()], with the test of the type id
    against GEOS_GEOMETRYCOLLECTION. *)
Lemma extractSegmentStrings_loop isA env (p_geom : Geometry) (st : Extraction) :
  extractSegmentStrings_ isA env p_geom st =
  fold_left (fun st g => extractElement (extractSegmentStrings_ isA env) isA env
                           (parentPolygonalOf p_geom) g st)
            (elements p_geom) st.
Proof.
  destruct p_geom; try reflexivity;
    cbn [extractSegmentStrings_ elements];
    match goal with
    | |- context [parentPolygonalOf ?p] => generalize (parentPolygonalOf p); intros par
    end;
    revert st; induction geometries as [| g rest IH]; intros st; try reflexivity;
    cbn [fold_left]; rewrite IH; f_equal; destruct g; reflexivity.
Qed.

Lemma extractSegmentStrings_visited isA env (p_geom : Geometry) :
  forall st,
    extractSegmentStrings_ isA env p_geom st =
    fold_left (fun st a => extractSegmentStringsFromAtomic isA (fst a)
                             (parentPolygonalOf (snd a)) env st)
              (visited p_geom) st.
Proof.
  induction p_geom as [cs | cs | cs | sh hs | gs IH | gs IH | gs IH | gs IH]
    using Geometry_nested_ind; intros st; try reflexivity.
  all: cbn [extractSegmentStrings_ visited];
       match goal with
       | |- context [(_, ?p)] => generalize p; intros q
       end;
       revert st; induction IH as [| g rest Hg _ IHrest]; intros st; [reflexivity |];
       cbn [flat_map]; rewrite fold_left_app, <- IHrest; f_equal;
       destruct g; try reflexivity; apply Hg.
Qed.

Lemma extract_fold isA env (elems : list (Geometry * Geometry)) :
  forall rg segStrings,
    fold_left (fun st a => extractSegmentStringsFromAtomic isA (fst a)
                             (parentPolygonalOf (snd a)) env st)
              elems (rg, segStrings) =
    let kept := filter (fun a => passes env (fst a)) elems in
    (set_elementId (elementId rg + Z.of_nat (length kept)) rg,
     segStrings ++
       flat_map (stringsOfNumbered isA env) (numberFrom (elementId rg + 1) kept)).
Proof.
  induction elems as [| [g par] rest IH]; intros rg segStrings; cbn [fold_left filter fst snd].
  - simpl. rewrite app_nil_r, Z.add_0_r. destruct rg; reflexivity.
  - rewrite extractSegmentStringsFromAtomic_eq.
    destruct (passes env g); [| apply IH].
    rewrite IH. cbn [length numberFrom flat_map fst snd elementId set_elementId].
    unfold stringsOfNumbered at 2. cbn [fst snd].
    rewrite <- app_assoc. f_equal.
    destruct rg; unfold set_elementId; simpl. f_equal. lia.
Qed.

(** The whole call, told from the elements that pass the filter: the k-th of
    them (from 1) gets the element id [elementId + k], and the segment
    strings are those of the elements, in order. *)
Lemma extractSegmentStrings_eq isA env (rg : RelateGeometry) :
  extractSegmentStrings isA env rg =
  (flat_map (stringsOfNumbered isA env)
            (numberFrom (elementId rg + 1) (extractedElements env (geom rg))),
   set_elementId (elementId rg + Z.of_nat (length (extractedElements env (geom rg)))) rg).
Proof.
  unfold extractSegmentStrings.
  rewrite extractSegmentStrings_visited, extract_fold. reflexivity.
Qed.

(** ** extractSegmentStrings: where a segment string comes from *)

Lemma in_numberFrom {A : Type} (items : list A) :
  forall k i a, In (i, a) (numberFrom k items) ->
                In a items /\ k <= i < k + Z.of_nat (length items).
Proof.
  induction items as [| b rest IH]; intros k i a H; [destruct H |].
  cbn [numberFrom length] in *. destruct H as [[= <- <-] | H].
  - split; [now left | lia].
  - apply IH in H. destruct H as [Hin Hr]. split; [now right | lia].
Qed.

Lemma numberFrom_In {A : Type} (items : list A) :
  forall k a, In a items -> exists i, In (i, a) (numberFrom k items).
Proof.
  induction items as [| b rest IH]; intros k a H; [destruct H |].
  destruct H as [<- | H].
  - exists k. now left.
  - destruct (IH (k + 1) a H) as [i Hi]. exists i. now right.
Qed.

Lemma numberFrom_nth_error {A : Type} (items : list A) :
  forall k n a, nth_error items n = Some a ->
                In (k + Z.of_nat n, a) (numberFrom k items).
Proof.
  induction items as [| b rest IH]; intros k n a H; [destruct n; discriminate |].
  destruct n as [| n]; cbn [nth_error numberFrom] in *.
  - injection H as <-. left. f_equal. lia.
  - right. replace (k + Z.of_nat (S n)) with (k + 1 + Z.of_nat n) by lia. now apply IH.
Qed.

Lemma numberFrom_NoDup {A : Type} (items : list A) :
  forall k, NoDup (map fst (numberFrom k items)).
Proof.
  induction items as [| b rest IH]; intros k; cbn [numberFrom map fst]; constructor.
  - intros H. apply in_map_iff in H. destruct H as ([i a] & Hi & Hin).
    apply in_numberFrom in Hin. simpl in Hi. lia.
  - apply IH.
Qed.

Lemma visited_element (p_geom : Geometry) :
  forall g q, In (g, q) (visited p_geom) ->
              In g (elements q)
              /\ typeId_eqb (getGeometryTypeId g) GEOS_GEOMETRYCOLLECTION = false.
Proof.
  induction p_geom as [cs | cs | cs | sh hs | gs IH | gs IH | gs IH | gs IH]
    using Geometry_nested_ind; intros g q H;
    try (destruct H as [[= <- <-] | []]; split; [now left | reflexivity]).
  all: cbn [visited] in H; apply in_flat_map in H; destruct H as (c & Hc & H);
       rewrite Forall_forall in IH; specialize (IH c Hc);
       destruct c; try (destruct H as [[= <- <-] | []]; split; [exact Hc | reflexivity]);
       apply IH; exact H.
Qed.

Lemma segment_string_origin isA env (rg : RelateGeometry) (ss : RelateSegmentString) :
  In ss (fst (extractSegmentStrings isA env rg)) ->
  exists id g q,
    In (g, q) (visited (geom rg)) /\ passes env g = true
    /\ elementId rg < id <= elementId rg + Z.of_nat (length (extractedElements env (geom rg)))
    /\ In ss (segmentStringsOf isA env id g (parentPolygonalOf q)).
Proof.
  rewrite extractSegmentStrings_eq. cbn [fst]. intros H.
  apply in_flat_map in H. destruct H as ([id [g q]] & Hn & Hss).
  apply in_numberFrom in Hn. destruct Hn as [Hin Hid].
  unfold extractedElements in Hin. apply filter_In in Hin. destruct Hin as [Hv Hp].
  exists id, g, q. repeat split; try assumption; lia.
Qed.

Lemma segment_string_produced isA env (rg : RelateGeometry) (g q : Geometry) :
  In (g, q) (visited (geom rg)) -> passes env g = true ->
  exists id, forall ss,
      In ss (segmentStringsOf isA env id g (parentPolygonalOf q)) ->
      In ss (fst (extractSegmentStrings isA env rg)).
Proof.
  intros Hv Hp. rewrite extractSegmentStrings_eq. cbn [fst].
  assert (Hin : In (g, q) (extractedElements env (geom rg)))
    by (apply filter_In; split; assumption).
  destruct (numberFrom_In _ (elementId rg + 1) _ Hin) as [id Hid].
  exists id. intros ss Hss. apply in_flat_map. exists (id, (g, q)). split; assumption.
Qed.

Lemma segmentStringsOf_cases isA env id g par (ss : RelateSegmentString) :
  In ss (segmentStringsOf isA env id g par) ->
  (exists cs, g = LineString cs /\ ss = createLine cs isA id)
  \/ (exists shell holes i r,
         g = Polygon shell holes /\ In (i, r) (rings shell holes)
         /\ ringPasses env r = true
         /\ ss = createRing r isA id i (parentPolyOf g par)).
Proof.
  destruct g; cbn [segmentStringsOf]; intros H; try destruct H as [H | []]; try destruct H.
  - left. eexists; split; reflexivity.
  - right. apply in_map_iff in H. destruct H as ([i r] & <- & Hin).
    apply filter_In in Hin. destruct Hin as [Hin Hp].
    exists shell, holes, i, r. repeat split; assumption.
Qed.

Lemma rings_ids_nonnegative shell holes i r : In (i, r) (rings shell holes) -> 0 <= i.
Proof.
  intros [[= <- <-] | H]; [lia |]. apply in_numberFrom in H. lia.
Qed.

(** C5, as amended.  Within one call the elements that pass the filter get
    the consecutive element ids [elementId + 1, elementId + 2, ...] of the
    RelateGeometry's counter, so no two of them share an id, and the segment
    strings are theirs in order: exactly one, with ring id -1, for a
    LineString; for a polygon one for each of its rings that is not empty and
    passes the filter, with ring id 0 for the shell and i for the i-th hole
    (holes counted from 1), all carrying the polygon's element id. *)
Theorem extractSegmentStrings_element_and_ring_ids isA env (rg : RelateGeometry) :
  let numbered := numberFrom (elementId rg + 1) (extractedElements env (geom rg)) in
  fst (extractSegmentStrings isA env rg) = flat_map (stringsOfNumbered isA env) numbered
  /\ elementId (snd (extractSegmentStrings isA env rg)) =
       elementId rg + Z.of_nat (length (extractedElements env (geom rg)))
  /\ NoDup (map fst numbered)
  /\ (forall id cs par,
         segmentStringsOf isA env id (LineString cs) par = [createLine cs isA id]
         /\ ss_ringId (createLine cs isA id) = -1
         /\ ss_elementId (createLine cs isA id) = id)
  /\ (forall id shell holes par,
         map (fun ss => (ss_ringId ss, ss_pts ss))
             (segmentStringsOf isA env id (Polygon shell holes) par)
         = filter (fun r => ringPasses env (snd r)) (rings shell holes)
         /\ Forall (fun ss => ss_elementId ss = id)
                   (segmentStringsOf isA env id (Polygon shell holes) par))
  /\ (forall shell holes,
         In (0, shell) (rings shell holes)
         /\ forall n hole, nth_error holes n = Some hole ->
                           In (Z.of_nat n + 1, hole) (rings shell holes)).
Proof.
  cbv zeta. rewrite extractSegmentStrings_eq. cbn [fst snd elementId set_elementId].
  split; [reflexivity |]. split; [reflexivity |]. split; [apply numberFrom_NoDup |].
  split; [intros; repeat split |]. split.
  - intros id shell holes par. cbn [segmentStringsOf]. split.
    + rewrite map_map. cbn [ss_ringId ss_pts createRing].
      induction (filter _ _) as [| [i r] l IH]; [reflexivity |]. simpl. now rewrite IH.
    + apply Forall_forall. intros ss H. apply in_map_iff in H.
      destruct H as (r & <- & _). reflexivity.
  - intros shell holes. split; [now left |].
    intros n hole H. right. rewrite Z.add_comm. now apply numberFrom_nth_error.
Qed.

(** The filter of the extraction.  An empty element and an empty ring
    produce nothing; with a filter envelope, an element or a ring whose
    envelope does not intersect it produces nothing, so every segment string
    of the result comes from a non-empty element whose envelope intersects the
    filter (and, for a ring, from a non-empty ring whose envelope does too);
    without a filter every non-empty LineString or Polygon that is handed to
    [extractSegmentStringsFromAtomic] has its segment strings in the result
    (one for a LineString, one for each non-empty ring of a Polygon). *)
Lemma extractSegmentStrings_filter isA (env : option Envelope) :
  (forall g par st,
      isEmpty g = true -> extractSegmentStringsFromAtomic isA g par env st = st)
  /\ (forall ring ringId parentPoly st,
         cs_isEmpty ring = true ->
         extractRingToSegmentString isA ring ringId env parentPoly st = st)
  /\ (forall e g par st,
         env = Some e -> Envelope_intersects e (getEnvelopeInternal g) = false ->
         extractSegmentStringsFromAtomic isA g par env st = st)
  /\ (forall e ring ringId parentPoly st,
         env = Some e ->
         Envelope_intersects e (getEnvelopeInternal (LinearRing ring)) = false ->
         extractRingToSegmentString isA ring ringId env parentPoly st = st)
  /\ (forall rg ss,
         In ss (fst (extractSegmentStrings isA env rg)) ->
         exists g q,
           In (g, q) (visited (geom rg)) /\ isEmpty g = false
           /\ env_intersects env (getEnvelopeInternal g) = true
           /\ cs_isEmpty (ss_pts ss) = false
           /\ (0 <= ss_ringId ss ->
               env_intersects env (getEnvelopeInternal (LinearRing (ss_pts ss))) = true))
  /\ (env = None ->
      forall rg g q,
        In (g, q) (visited (geom rg)) -> isEmpty g = false ->
        (forall cs, g = LineString cs ->
                    exists ss, In ss (fst (extractSegmentStrings isA env rg))
                               /\ ss_pts ss = cs /\ ss_ringId ss = -1)
        /\ (forall shell holes i r,
               g = Polygon shell holes -> In (i, r) (rings shell holes) ->
               cs_isEmpty r = false ->
               exists ss, In ss (fst (extractSegmentStrings isA env rg))
                          /\ ss_pts ss = r /\ ss_ringId ss = i)).
Proof.
  split; [| split; [| split; [| split; [| split]]]].
  - intros g par [rg segs] Hg. rewrite extractSegmentStringsFromAtomic_eq.
    unfold passes. now rewrite Hg.
  - intros ring ringId parentPoly [rg segs] Hr. rewrite extractRingToSegmentString_eq.
    unfold ringPasses, passes. cbn [isEmpty]. rewrite Hr. simpl. apply f_equal, app_nil_r.
  - intros e g par [rg segs] -> Hi. rewrite extractSegmentStringsFromAtomic_eq.
    unfold passes. cbn [env_intersects]. now rewrite Hi, andb_false_r.
  - intros e ring ringId parentPoly [rg segs] -> Hi. rewrite extractRingToSegmentString_eq.
    unfold ringPasses, passes. cbn [env_intersects]. rewrite Hi, andb_false_r.
    apply f_equal, app_nil_r.
  - intros rg ss H. apply segment_string_origin in H.
    destruct H as (id & g & q & Hv & Hp & _ & Hss).
    exists g, q. unfold passes in Hp. apply andb_true_iff in Hp. destruct Hp as [Hne Hi].
    apply negb_true_iff in Hne. split; [exact Hv |]. split; [exact Hne |].
    split; [exact Hi |].
    apply segmentStringsOf_cases in Hss.
    destruct Hss as [(cs & -> & ->) | (shell & holes & i & r & -> & Hr & Hrp & ->)].
    + split; [exact Hne | cbn [ss_ringId createLine]; lia].
    + unfold ringPasses, passes in Hrp. apply andb_true_iff in Hrp.
      destruct Hrp as [Hrne Hri]. apply negb_true_iff in Hrne.
      split; [exact Hrne | intros _; exact Hri].
  - intros -> rg g q Hv Hne.
    assert (Hp : passes None g = true) by (unfold passes; now rewrite Hne).
    destruct (segment_string_produced isA None rg g q Hv Hp) as [id Hid]. split.
    + intros cs ->. exists (createLine cs isA id).
      split; [apply Hid; now left | split; reflexivity].
    + intros shell holes i r -> Hr Hrne.
      exists (createRing r isA id i
                (parentPolyOf (Polygon shell holes) (parentPolygonalOf q))).
      split; [| split; reflexivity].
      apply Hid. cbn [segmentStringsOf]. apply in_map_iff. exists (i, r).
      split; [reflexivity |]. apply filter_In. split; [exact Hr |].
      unfold ringPasses, passes. cbn [isEmpty env_intersects snd]. now rewrite Hrne.
Qed.

(** C7.  A ring segment string (ring id 0 or more) of the result is a ring
    of a polygon that the traversal took from the elements of a geometry [q]
    (its direct parent, or the polygon itself when it is the whole input).
    When [q] is a MultiPolygon the back-pointer refers to [q]; otherwise (the
    polygon is the input itself or an element of a GeometryCollection) it
    refers to the polygon: no MultiPolygon is associated with it. *)
Theorem extractSegmentStrings_parent_polygon isA env (rg : RelateGeometry)
  (ss : RelateSegmentString) :
  In ss (fst (extractSegmentStrings isA env rg)) ->
  0 <= ss_ringId ss ->
  exists shell holes q,
    In (Polygon shell holes, q) (visited (geom rg))
    /\ In (Polygon shell holes) (elements q)
    /\ In (ss_ringId ss, ss_pts ss) (rings shell holes)
    /\ ((getGeometryTypeId q = GEOS_MULTIPOLYGON /\ ss_parentPolygonal ss = Some q)
        \/ (getGeometryTypeId q <> GEOS_MULTIPOLYGON
            /\ ss_parentPolygonal ss = Some (Polygon shell holes))).
Proof.
  intros H Hring. apply segment_string_origin in H.
  destruct H as (id & g & q & Hv & _ & _ & Hss).
  apply segmentStringsOf_cases in Hss.
  destruct Hss as [(cs & -> & ->) | (shell & holes & i & r & -> & Hr & _ & ->)].
  - cbn [ss_ringId createLine] in Hring. lia.
  - exists shell, holes, q. split; [exact Hv |].
    split; [apply (visited_element _ _ _ Hv) |]. split; [exact Hr |].
    cbn [ss_parentPolygonal createRing]. unfold parentPolygonalOf, parentPolyOf.
    destruct q; cbn [getGeometryTypeId typeId_eqb];
      solve [ left; split; reflexivity | right; split; [discriminate | reflexivity] ].
Qed.

(** ** The lazily built locator and unique points *)

(** The locator pointer, when set, points to an object that exists. *)
Definition valid (w : World) : Prop :=
  match locator (this w) with
  | Some p => (p < length (locators w))%nat
  | None => True
  end.

(** The number of RelatePointLocator objects a step constructs. *)
Definition constructs (w w' : World) : nat := length (locators w') - length (locators w).

Lemma store_length (objs : list RelatePointLocator) :
  forall p o, length (store objs p o) = length objs.
Proof.
  induction objs as [| a rest IH]; intros p o; [reflexivity |].
  destruct p; simpl; [reflexivity | now rewrite IH].
Qed.

Lemma getLocator_built (w : World) (p : nat) :
  locator (this w) = Some p -> getLocator w = (p, w).
Proof. unfold getLocator. intros ->. reflexivity. Qed.

Lemma getLocator_first (w : World) :
  locator (this w) = None ->
  exists w', getLocator w = (length (locators w), w')
             /\ locator (this w') = Some (length (locators w))
             /\ length (locators w') = S (length (locators w)).
Proof.
  unfold getLocator. intros ->. eexists. split; [reflexivity |].
  split; [reflexivity |]. cbn [locators]. rewrite length_app. simpl. lia.
Qed.

Lemma call_locator_spec {R : Type}
  (method : RelatePointLocator -> R * RelatePointLocator) (w : World) :
  valid w ->
  exists r p w',
    call_locator method w = Some (r, p, w')
    /\ locator (this w') = Some p /\ valid w'
    /\ match locator (this w) with
       | Some p0 => p = p0 /\ length (locators w') = length (locators w)
       | None => length (locators w') = S (length (locators w))
       end.
Proof.
  unfold valid, call_locator. intros Hv.
  destruct (locator (this w)) as [p0 |] eqn:E.
  - rewrite (getLocator_built w p0 E). unfold deref.
    destruct (nth_error (locators w) p0) as [obj |] eqn:En;
      [| apply nth_error_None in En; lia].
    destruct (method obj) as [r obj'] eqn:Em.
    exists r, p0, (mkWorld (this w) (store (locators w) p0 obj')).
    cbn [this locators]. rewrite E, store_length. repeat split. exact Hv.
  - destruct (getLocator_first w E) as (w1 & -> & Hl & Hn). unfold deref.
    destruct (nth_error (locators w1) (length (locators w))) as [obj |] eqn:En;
      [| apply nth_error_None in En; lia].
    destruct (method obj) as [r obj'] eqn:Em.
    exists r, (length (locators w)),
      (mkWorld (this w1) (store (locators w1) (length (locators w)) obj')).
    cbn [this locators]. rewrite Hl, store_length. repeat split; lia.
Qed.

Lemma perform_spec (c : LocatorCall) (w : World) :
  valid w ->
  exists p w',
    perform c w = Some (p, w')
    /\ locator (this w') = Some p /\ valid w'
    /\ match locator (this w) with
       | Some p0 => p = p0 /\ length (locators w') = length (locators w)
       | None => length (locators w') = S (length (locators w))
       end.
Proof.
  intros Hv.
  destruct c; cbn [perform];
    unfold isNodeInArea, locateLineEnd, locateAreaVertex, locateNode, locateWithDim,
      hasBoundary;
    match goal with
    | |- context [call_locator ?m w] =>
        destruct (call_locator_spec m w Hv) as (r & ptr & w' & -> & H)
    end; exists ptr, w'; (split; [reflexivity | exact H]).
Qed.

Lemma run_built (cs : list LocatorCall) :
  forall w p0,
    valid w -> locator (this w) = Some p0 ->
    exists ps w',
      run cs w = Some (ps, w')
      /\ length ps = length cs /\ Forall (eq p0) ps
      /\ locator (this w') = Some p0 /\ valid w'
      /\ length (locators w') = length (locators w).
Proof.
  induction cs as [| c rest IH]; intros w p0 Hv Hl; cbn [run].
  - exists [], w. repeat split; [constructor | assumption | assumption].
  - destruct (perform_spec c w Hv) as (p & w1 & -> & Hl1 & Hv1 & Hsame).
    rewrite Hl in Hsame. destruct Hsame as [-> Hlen].
    destruct (IH w1 p0 Hv1 Hl1) as (ps & w2 & -> & Hn & Hall & Hl2 & Hv2 & Hlen2).
    exists (p0 :: ps), w2. cbn [length]. repeat split; try assumption; try lia.
    now constructor.
Qed.

(** C8.  The locator and the unique points are not built by the constructor.
    Over any sequence of operations that go through [getLocator], on a
    RelateGeometry whose locator pointer is null or points to a locator, at
    most one RelatePointLocator is constructed, every call is made on the same
    locator object, and once the locator exists no call constructs another.
    The set of unique points is built on the first demand: while the member
    is empty [getUniquePoints] returns what [createUniquePoints] makes of the
    coordinates of the geometry and stores it, and a set that is there is
    returned as it is, the RelateGeometry unchanged.  So [getUniquePoints]
    called again returns the same set and leaves the RelateGeometry as the
    first call left it, and on a RelateGeometry fresh from the constructor the
    first call returns the set of the coordinates of the input. *)
Theorem locator_and_uniquePoints_built_once :
  (forall input isPrepared bnRule rg,
      new_RelateGeometry input isPrepared bnRule = Some rg ->
      locator rg = None /\ uniquePoints rg = [])
  /\ (forall cs w,
         valid w ->
         exists ps w',
           run cs w = Some (ps, w')
           /\ length ps = length cs
           /\ (constructs w w' <= 1)%nat
           /\ (forall p q, In p ps -> In q ps -> p = q)
           /\ (forall p, In p ps -> locator (this w') = Some p)
           /\ (forall p0, locator (this w) = Some p0 ->
                          constructs w w' = 0%nat /\ Forall (eq p0) ps))
  /\ (forall rg,
         (XYSet_empty (uniquePoints rg) = true ->
          getUniquePoints rg
          = (createUniquePoints rg, set_uniquePoints (createUniquePoints rg) rg))
         /\ (XYSet_empty (uniquePoints rg) = false ->
             getUniquePoints rg = (uniquePoints rg, rg))
         /\ getUniquePoints (snd (getUniquePoints rg)) = getUniquePoints rg
         /\ fst (getUniquePoints rg) = uniquePoints (snd (getUniquePoints rg)))
  /\ (forall input isPrepared bnRule rg,
         new_RelateGeometry input isPrepared bnRule = Some rg ->
         fst (getUniquePoints rg)
         = XYSet_of_range (ComponentCoordinateExtracter_getCoordinates input)
         /\ snd (getUniquePoints rg) = set_uniquePoints (fst (getUniquePoints rg)) rg
         /\ fst (getUniquePoints (snd (getUniquePoints rg))) = fst (getUniquePoints rg)).
Proof.
  assert (Htwice : forall rg,
             getUniquePoints (snd (getUniquePoints rg)) = getUniquePoints rg).
  { intros rg. unfold getUniquePoints. cbn [fst snd].
    destruct (XYSet_empty (uniquePoints rg)) eqn:E.
    - cbn [uniquePoints set_uniquePoints].
      destruct (XYSet_empty (createUniquePoints rg)) eqn:E'; [| reflexivity].
      unfold createUniquePoints at 1 2. cbn [geom set_uniquePoints uniquePoints].
      reflexivity.
    - rewrite E. reflexivity. }
  split; [| split; [| split]].
  - intros input isPrepared bnRule rg H.
    apply new_RelateGeometry_caches in H. intuition.
  - intros cs w Hv. unfold constructs.
    destruct (locator (this w)) as [p0 |] eqn:E.
    + destruct (run_built cs w p0 Hv E) as (ps & w' & Hr & Hn & Hall & Hl & _ & Hlen).
      exists ps, w'. rewrite Forall_forall in Hall.
      split; [exact Hr |]. split; [exact Hn |]. split; [lia |].
      split; [| split].
      * intros p q Hp Hq. rewrite <- (Hall p Hp), <- (Hall q Hq). reflexivity.
      * intros p Hp. rewrite <- (Hall p Hp). exact Hl.
      * intros p1 [= <-]. split; [lia | apply Forall_forall; exact Hall].
    + destruct cs as [| c rest]; cbn [run].
      * exists [], w.
        split; [reflexivity |]. split; [reflexivity |]. split; [lia |].
        split; [| split]; [intros p q [] | intros p [] | intros p1 [=]].
      * destruct (perform_spec c w Hv) as (p & w1 & -> & Hl1 & Hv1 & Hgrow).
        rewrite E in Hgrow.
        destruct (run_built rest w1 p Hv1 Hl1) as (ps & w2 & -> & Hn & Hall & Hl2 & _ & Hlen).
        exists (p :: ps), w2. rewrite Forall_forall in Hall. cbn [length].
        assert (Hsame : forall q, In q (p :: ps) -> q = p).
        { intros q [<- | Hq]; [reflexivity | symmetry; now apply Hall]. }
        split; [reflexivity |]. split; [lia |]. split; [lia |].
        split; [| split].
        -- intros a b Ha Hb. rewrite (Hsame a Ha), (Hsame b Hb). reflexivity.
        -- intros a Ha. rewrite (Hsame a Ha). exact Hl2.
        -- intros p1 [=].
  - intros rg. split; [| split; [| split]].
    + intros E. unfold getUniquePoints. rewrite E. reflexivity.
    + intros E. unfold getUniquePoints. rewrite E. reflexivity.
    + apply Htwice.
    + reflexivity.
  - intros input isPrepared bnRule rg H.
    apply new_RelateGeometry_caches in H. destruct H as (Hg & _ & _ & _ & _ & Hu).
    split; [| split].
    + unfold getUniquePoints. rewrite Hu. cbn [XYSet_empty fst uniquePoints set_uniquePoints].
      unfold createUniquePoints. rewrite Hg. reflexivity.
    + unfold getUniquePoints. rewrite Hu. reflexivity.
    + rewrite Htwice. reflexivity.
Qed.

End Wrapper.

(** ** Instances on concrete geometries *)

Section Instances.
Import standin.

Definition point_1_1 : Geometry := Point (seq2 [xy 1 1]).
Definition polygon_empty : Geometry := Polygon (seq2 []) [].
Definition square : Geometry :=
  Polygon (seq2 [xy 0 0; xy 10 0; xy 10 10; xy 0 10; xy 0 0]) [].

(** C4 as stated fails on GEOMETRYCOLLECTION (POINT (1 1), POLYGON EMPTY): its
    only non-empty element is the point, so the maximum dimension over the
    non-empty elements is P (0) and no area is present, and geomDim is A (2),
    the value [input->getDimension()] that the initialiser gives it and that
    the loop only ever raises. *)
Lemma analyzeDimensions_geomDim_counts_empty_elements :
  option_map geomDim
    (analyzeDimensions
       (initialised (collab := collaborators) (GeometryCollection [point_1_1; polygon_empty]) false Mod2 true))
  = Some Dimension.A
  /\ option_map hasAreas
       (analyzeDimensions
          (initialised (collab := collaborators) (GeometryCollection [point_1_1; polygon_empty]) false Mod2 true))
     = Some false
  /\ maxDimension (GeometryCollection [point_1_1; polygon_empty]) = Dimension.P.
Proof. repeat split. Qed.

(** An instance of the amended C4: GEOMETRYCOLLECTION (POINT (1 1),
    MULTIPOLYGON (((0 0, 10 0, 10 10, 0 10, 0 0)))). *)
Lemma analyzeDimensions_flags_witness :
  exists rg,
    analyzeDimensions
      (initialised (collab := collaborators) (GeometryCollection [point_1_1; MultiPolygon [square]]) false Mod2 true)
    = Some rg
    /\ hasPoints rg = true /\ hasLines rg = false /\ hasAreas rg = true
    /\ geomDim rg = Dimension.A.
Proof.
  destruct (analyzeDimensions_flags (collab := collaborators)
              (GeometryCollection [point_1_1; MultiPolygon [square]]) false Mod2 true
              eq_refl eq_refl eq_refl)
    as (rg & H & Hp & Hl & Ha & Hd & _).
  exists rg. repeat split; assumption.
Defined.

Definition squareWithHole : Geometry :=
  Polygon (seq2 [xy 0 0; xy 10 0; xy 10 10; xy 0 10; xy 0 0])
          [seq2 [xy 4 4; xy 6 4; xy 6 6; xy 4 6; xy 4 4]].
Definition line_0_0_1_1 : Geometry := LineString (seq2 [xy 0 0; xy 1 1]).

(** The RelateGeometry the constructor builds for an input. *)
Definition constructed (input : Geometry) : option RelateGeometry :=
  new_RelateGeometry (collab := collaborators) input false Mod2.

(** The ring (0 0, 1 0, 1 1, 0 0). *)
Definition triangle : CoordinateSequence := seq2 [xy 0 0; xy 1 0; xy 1 1; xy 0 0].

(** C3.  On GEOMETRYCOLLECTION (LINEARRING (0 0, 1 0, 1 1, 0 0)) the real
    dimension comes out as P (0).  The geometry is not empty, its dimension,
    which the constructor caches in geomDim, is L, and the ring is no
    zero-length line: the vertex test that [isZeroLength] applies to a
    LineString gives false on it.  But the two loops over the elements look for the type
    id GEOS_LINESTRING only, and the ring's is GEOS_LINEARRING: [isZeroLength]
    skips it and answers true, [analyzeDimensions] sets no flag for it, and
    [getDimensionReal] takes the zero-length branch.  With the same vertices
    as a LINESTRING the answer is L. *)
Theorem getDimensionReal_misses_LinearRing :
  isEmpty (GeometryCollection [LinearRing triangle]) = false
  /\ getDimension (GeometryCollection [LinearRing triangle]) = Dimension.L
  /\ isZeroLength_LineString triangle = false
  /\ isZeroLength (GeometryCollection [LinearRing triangle]) = Some true
  /\ option_map
       (fun rg => (getDimension_ rg, isLineZeroLen rg, hasAreas rg, hasLines rg))
       (constructed (GeometryCollection [LinearRing triangle]))
     = Some (Dimension.L, true, false, false)
  /\ option_map getDimensionReal (constructed (GeometryCollection [LinearRing triangle]))
     = Some Dimension.P
  /\ option_map getDimensionReal (constructed (GeometryCollection [LineString triangle]))
     = Some Dimension.L.
Proof. vm_compute. repeat split. Qed.

(** C5 as stated fails on MULTIPOLYGON (((0 0, 10 0, 10 10, 0 10, 0 0),
    (4 4, 6 4, 6 6, 4 6, 4 4))) with the filter envelope [0,1] x [0,1]: the
    polygon passes the filter and has two rings, and the call yields one
    segment string, the shell's, because the hole's envelope does not
    intersect the filter.  And the counter is the RelateGeometry's, not the
    call's: a second call on MULTILINESTRING ((0 0, 1 1)) gives the line the
    element id 2. *)
Lemma extractSegmentStrings_ring_skipped_counter_kept :
  passes (rectangle 0 1 0 1) squareWithHole = true
  /\ length (rings (seq2 [xy 0 0; xy 10 0; xy 10 10; xy 0 10; xy 0 0])
                   [seq2 [xy 4 4; xy 6 4; xy 6 6; xy 4 6; xy 4 4]]) = 2%nat
  /\ option_map
       (fun rg => map ss_ringId (fst (extractSegmentStrings true (rectangle 0 1 0 1) rg)))
       (constructed (MultiPolygon [squareWithHole])) = Some [0]
  /\ option_map
       (fun rg => map ss_elementId (fst (extractSegmentStrings true None rg)))
       (constructed (MultiLineString [line_0_0_1_1])) = Some [1]
  /\ option_map
       (fun rg => map ss_elementId
                    (fst (extractSegmentStrings true None
                            (snd (extractSegmentStrings true None rg)))))
       (constructed (MultiLineString [line_0_0_1_1])) = Some [2].
Proof. vm_compute. repeat split. Qed.

(** An instance of the amended C5: GEOMETRYCOLLECTION (POINT (1 1),
    LINESTRING (0 0, 1 1), POLYGON with a hole), no filter: the element ids
    are 1, 2, 3 and the ring ids -1, 0, 1. *)
Lemma extractSegmentStrings_element_and_ring_ids_witness :
  exists rg,
    constructed (GeometryCollection [point_1_1; line_0_0_1_1; squareWithHole]) = Some rg
    /\ map (fun ss => (ss_elementId ss, ss_ringId ss))
           (fst (extractSegmentStrings true None rg)) = [(2, -1); (3, 0); (3, 1)]
    /\ elementId (snd (extractSegmentStrings true None rg)) = 3.
Proof.
  destruct (constructed (GeometryCollection [point_1_1; line_0_0_1_1; squareWithHole]))
    as [rg |] eqn:E; [| vm_compute in E; discriminate].
  exists rg. split; [reflexivity |].
  destruct (extractSegmentStrings_element_and_ring_ids true None rg) as (Hs & He & _).
  rewrite Hs, He. vm_compute in E. injection E as <-. vm_compute. split; reflexivity.
Defined.

(** Without a filter the line of MULTILINESTRING ((0 0, 1 1)) is
    extracted. *)
Lemma extractSegmentStrings_filter_instance :
  exists rg ss,
    constructed (MultiLineString [line_0_0_1_1]) = Some rg
    /\ In ss (fst (extractSegmentStrings true None rg))
    /\ ss_pts ss = seq2 [xy 0 0; xy 1 1] /\ ss_ringId ss = -1.
Proof.
  destruct (constructed (MultiLineString [line_0_0_1_1]))
    as [rg |] eqn:E; [| vm_compute in E; discriminate].
  assert (Hg : geom rg = MultiLineString [line_0_0_1_1])
    by (vm_compute in E; injection E as <-; reflexivity).
  destruct (proj2 (proj2 (proj2 (proj2 (proj2
              (extractSegmentStrings_filter true None))))) eq_refl rg
              line_0_0_1_1 (MultiLineString [line_0_0_1_1])) as [Hline _].
  - rewrite Hg. left. reflexivity.
  - reflexivity.
  - destruct (Hline (seq2 [xy 0 0; xy 1 1]) eq_refl) as (ss & Hin & Hpts & Hid).
    exists rg, ss. split; [reflexivity |]. split; [exact Hin |]. split; assumption.
Defined.

(** An instance of C7: the shell of the polygon of MULTIPOLYGON (((0 0,
    10 0, 10 10, 0 10, 0 0))) is in the result and refers to the MultiPolygon,
    the geometry the polygon is an element of. *)
Lemma extractSegmentStrings_parent_polygon_witness :
  exists rg ss,
    constructed (MultiPolygon [square]) = Some rg
    /\ In ss (fst (extractSegmentStrings true None rg))
    /\ ss_ringId ss = 0
    /\ ss_parentPolygonal ss = Some (MultiPolygon [square])
    /\ exists shell holes q,
        In (Polygon shell holes, q) (visited (geom rg))
        /\ In (Polygon shell holes) (elements q)
        /\ In (ss_ringId ss, ss_pts ss) (rings shell holes)
        /\ ((getGeometryTypeId q = GEOS_MULTIPOLYGON /\ ss_parentPolygonal ss = Some q)
            \/ (getGeometryTypeId q <> GEOS_MULTIPOLYGON
                /\ ss_parentPolygonal ss = Some (Polygon shell holes))).
Proof.
  destruct (constructed (MultiPolygon [square])) as [rg |] eqn:E;
    [| vm_compute in E; discriminate].
  exists rg, (createRing (seq2 [xy 0 0; xy 10 0; xy 10 10; xy 0 10; xy 0 0]) true 1 0
                (MultiPolygon [square])).
  assert (Hin : In (createRing (seq2 [xy 0 0; xy 10 0; xy 10 10; xy 0 10; xy 0 0]) true 1 0
                      (MultiPolygon [square]))
                   (fst (extractSegmentStrings true None rg))).
  { vm_compute in E. injection E as <-. vm_compute. left. reflexivity. }
  split; [reflexivity |]. split; [exact Hin |]. split; [reflexivity |].
  split; [reflexivity |].
  apply (extractSegmentStrings_parent_polygon true None rg _ Hin).
  vm_compute. discriminate.
Defined.

(** A LinearRing among the elements sets no flag (its type id is
    GEOS_LINEARRING, which none of the three tests matches), and a LinearRing
    as the whole input reaches the cast to GeometryCollection. *)
Example analyzeDimensions_LinearRing :
  option_map (fun rg => (hasPoints rg, hasLines rg, hasAreas rg, geomDim rg))
    (analyzeDimensions
       (initialised (collab := collaborators)
          (GeometryCollection [LinearRing (seq2 [xy 0 0; xy 1 0; xy 1 1; xy 0 0])])
          false Mod2 true))
  = Some (false, false, false, Dimension.L)
  /\ analyzeDimensions
       (initialised (collab := collaborators)
          (LinearRing (seq2 [xy 0 0; xy 1 0; xy 1 1; xy 0 0])) false Mod2 true)
     = None.
Proof. vm_compute. split; reflexivity. Qed.

(** A polygon that is the input itself, or an element of a
    GeometryCollection, refers to itself. *)
Example extractSegmentStrings_parent_in_collection :
  option_map
    (fun rg => map ss_parentPolygonal (fst (extractSegmentStrings true None rg)))
    (constructed (GeometryCollection [square])) = Some [Some square].
Proof. vm_compute. reflexivity. Qed.

(** C6.  On GEOMETRYCOLLECTION (MULTILINESTRING ((0 0, 1 1))) without a
    filter, the LineString is a non-empty atomic component of the input (and
    [analyzeDimensions], which goes through [getAllGeometries], sets hasLines
    for it), and the call yields no segment string: the MultiLineString is no
    GEOS_GEOMETRYCOLLECTION, so it is handed to
    [extractSegmentStringsFromAtomic] whole, where it takes an element id and,
    being neither a LineString nor a Polygon, produces nothing. *)
Theorem extractSegmentStrings_misses_nested_MultiLineString :
  components (GeometryCollection [MultiLineString [line_0_0_1_1]]) = [line_0_0_1_1]
  /\ isEmpty line_0_0_1_1 = false
  /\ option_map hasLines (constructed (GeometryCollection [MultiLineString [line_0_0_1_1]]))
     = Some true
  /\ option_map
       (fun rg => (fst (extractSegmentStrings true None rg),
                   elementId (snd (extractSegmentStrings true None rg))))
       (constructed (GeometryCollection [MultiLineString [line_0_0_1_1]]))
     = Some ([], 1)
  /\ option_map
       (fun rg => map ss_pts (fst (extractSegmentStrings true None rg)))
       (constructed (MultiLineString [line_0_0_1_1]))
     = Some [seq2 [xy 0 0; xy 1 1]].
Proof. vm_compute. repeat split. Qed.

(** The same for a MultiPolygon that is an element of a GeometryCollection. *)
Example extractSegmentStrings_nested_MultiPolygon :
  option_map
    (fun rg => (fst (extractSegmentStrings true None rg),
                elementId (snd (extractSegmentStrings true None rg))))
    (constructed (GeometryCollection [MultiPolygon [square]])) = Some ([], 1).
Proof. vm_compute. reflexivity. Qed.

(** An instance of C8: three operations on the RelateGeometry of
    MULTIPOINT ((1 1)), whose locator is not built yet, construct one locator
    and all go through it; its set of unique points is empty after the
    constructor, and the first call of [getUniquePoints] and the one after it
    return the point (1 1). *)
Lemma locator_and_uniquePoints_built_once_witness :
  exists rg ps w',
    constructed (MultiPoint [point_1_1]) = Some rg
    /\ run [call_locateWithDim (xy 1 1); call_hasBoundary; call_locateLineEnd (xy 1 1)]
           (mkWorld rg []) = Some (ps, w')
    /\ length ps = 3%nat
    /\ (constructs (mkWorld rg []) w' <= 1)%nat
    /\ (forall p q, In p ps -> In q ps -> p = q)
    /\ uniquePoints rg = []
    /\ fst (getUniquePoints rg) = [xy 1 1]
    /\ fst (getUniquePoints (snd (getUniquePoints rg))) = [xy 1 1].
Proof.
  destruct (constructed (MultiPoint [point_1_1])) as [rg |] eqn:E;
    [| vm_compute in E; discriminate].
  assert (Hv : valid (mkWorld rg [])).
  { vm_compute in E. injection E as <-. exact I. }
  destruct (proj1 (proj2 locator_and_uniquePoints_built_once)
              [call_locateWithDim (xy 1 1); call_hasBoundary; call_locateLineEnd (xy 1 1)]
              (mkWorld rg []) Hv)
    as (ps & w' & Hrun & Hlen & Hcons & Hsame & _).
  destruct (proj1 locator_and_uniquePoints_built_once _ _ _ _ E) as [_ Hnone].
  destruct (proj2 (proj2 (proj2 locator_and_uniquePoints_built_once)) _ _ _ _ E)
    as (Hfirst & _ & Hagain).
  exists rg, ps, w'. rewrite Hagain, Hfirst.
  repeat split; try assumption.
Defined.

Example run_three_calls :
  option_map
    (fun rg =>
       option_map (fun r => (fst r, length (locators (snd r)), locator (this (snd r))))
         (run [call_locateWithDim (xy 1 1); call_hasBoundary; call_locateLineEnd (xy 1 1)]
              (mkWorld rg [])))
    (constructed (MultiPoint [point_1_1]))
  = Some (Some ([0%nat; 0%nat; 0%nat], 1%nat, Some 0%nat)).
Proof. vm_compute. reflexivity. Qed.

Example getUniquePoints_twice :
  option_map
    (fun rg => (fst (getUniquePoints rg), fst (getUniquePoints (snd (getUniquePoints rg)))))
    (constructed (MultiPoint [point_1_1; point_1_1; Point (seq2 [xy 2 5])]))
  = Some ([xy 1 1; xy 2 5], [xy 1 1; xy 2 5]).
Proof. vm_compute. reflexivity. Qed.

End Instances.

End RelateGeometryTheory.

(* ====================================================================== *)
(** * Properties of WKBWriter                                              *)
(* ====================================================================== *)

Module WKBWriterTheory.
Import geom io.
Local Open Scope write_scope.

Section Writer.
Context {bov : ByteOrderValues}.
Variable w : WKBWriter.

(** A write that cannot throw: it appends bytes to the stream. *)
Definition appends (a : Write) (bytes : list byte) : Prop :=
  forall os, a os = inr (os ++ bytes).

Lemma appends_emit bytes : appends (emit bytes) bytes.
Proof. intros os. reflexivity. Qed.

Lemma appends_done : appends done [].
Proof. intros os. unfold done. now rewrite app_nil_r. Qed.

Lemma appends_andThen a b xs ys :
  appends a xs -> appends b ys -> appends (a ;; b) (xs ++ ys).
Proof.
  intros Ha Hb os. unfold andThen. rewrite Ha, Hb. now rewrite app_assoc.
Qed.

Lemma appends_forEach {A : Type} (body : A -> Write) (bytesOf : A -> list byte)
  (items : list A) :
  (forall a, In a items -> appends (body a) (bytesOf a)) ->
  appends (forEach body items) (flat_map bytesOf items).
Proof.
  induction items as [| a rest IH]; intros H; cbn [forEach flat_map].
  - apply appends_done.
  - apply appends_andThen; [apply H; now left |].
    apply IH. intros b Hb. apply H. now right.
Qed.

(** The bytes of the coordinate at [idx]. *)
Definition coordinateBytes (cs : CoordinateSequence) (is3d : bool) (idx : nat) : list byte :=
  putDouble (x (getAt cs idx)) (byteOrder w)
  ++ putDouble (y (getAt cs idx)) (byteOrder w)
  ++ (if is3d then putDouble (x (getAt cs idx)) (byteOrder w) else []).

Lemma writeCoordinate_appends cs idx is3d :
  appends (writeCoordinate w cs idx is3d) (coordinateBytes cs is3d idx).
Proof.
  unfold writeCoordinate, coordinateBytes, getX, getY, getOrdinate.
  repeat apply appends_andThen; try apply appends_emit.
  destruct is3d; [apply appends_emit | apply appends_done].
Qed.

Definition is3dOf (cs : CoordinateSequence) : bool :=
  (cs_dimension cs >? 2) && (outputDimension w >? 2).

Definition sequenceBytes (cs : CoordinateSequence) (sized : bool) : list byte :=
  (if sized then putInt (Z.of_nat (getSize cs)) (byteOrder w) else [])
  ++ flat_map (coordinateBytes cs (is3dOf cs)) (seq 0 (getSize cs)).

Lemma writeCoordinateSequence_appends cs sized :
  appends (writeCoordinateSequence w cs sized) (sequenceBytes cs sized).
Proof.
  unfold writeCoordinateSequence, sequenceBytes.
  apply appends_andThen.
  - destruct sized; [apply appends_emit | apply appends_done].
  - apply appends_forEach. intros i _. apply writeCoordinate_appends.
Qed.

Lemma coordinateBytes_length cs is3d idx :
  length (coordinateBytes cs is3d idx) = if is3d then 24%nat else 16%nat.
Proof.
  unfold coordinateBytes. rewrite !length_app, !putDouble_size.
  destruct is3d; [rewrite putDouble_size |]; reflexivity.
Qed.

(** C9.  With output dimension 3 and a coordinate sequence of dimension
    greater than 2, every coordinate is written as three ordinates of 8
    bytes, and the third is the coordinate's X ordinate (the bytes of x, of y
    and of x again; z is not written).  With output dimension 2 every
    coordinate is written as two ordinates of 8 bytes, x then y. *)
Theorem writeCoordinate_third_ordinate_is_X (cs : CoordinateSequence) (sized : bool)
  (os : list byte) :
  let count := if sized then putInt (Z.of_nat (getSize cs)) (byteOrder w) else [] in
  let X idx := putDouble (x (getAt cs idx)) (byteOrder w) in
  let Y idx := putDouble (y (getAt cs idx)) (byteOrder w) in
  (outputDimension w = 3 -> cs_dimension cs > 2 ->
     writeCoordinateSequence w cs sized os =
       inr (os ++ count ++ flat_map (fun idx => X idx ++ Y idx ++ X idx) (seq 0 (getSize cs)))
     /\ (forall idx os',
            writeCoordinate w cs idx true os' = inr (os' ++ X idx ++ Y idx ++ X idx)
            /\ length (X idx) = 8%nat /\ length (Y idx) = 8%nat))
  /\ (outputDimension w = 2 ->
        writeCoordinateSequence w cs sized os =
          inr (os ++ count ++ flat_map (fun idx => X idx ++ Y idx) (seq 0 (getSize cs)))
        /\ (forall idx os',
               writeCoordinate w cs idx false os' = inr (os' ++ X idx ++ Y idx)
               /\ length (X idx) = 8%nat /\ length (Y idx) = 8%nat)).
Proof.
  cbv zeta. split.
  - intros Hout Hdim. split.
    + rewrite writeCoordinateSequence_appends. unfold sequenceBytes, is3dOf.
      rewrite Hout. replace (cs_dimension cs >? 2) with true by (symmetry; apply Z.gtb_lt; lia).
      reflexivity.
    + intros idx os'. rewrite writeCoordinate_appends, !putDouble_size.
      repeat split.
  - intros Hout. split.
    + rewrite writeCoordinateSequence_appends. unfold sequenceBytes, is3dOf.
      rewrite Hout, andb_false_r. do 3 f_equal.
      induction (seq 0 (getSize cs)) as [| i l IH]; [reflexivity |].
      cbn [flat_map]. rewrite IH. unfold coordinateBytes. now rewrite app_nil_r.
    + intros idx os'. rewrite writeCoordinate_appends, !putDouble_size.
      unfold coordinateBytes. rewrite app_nil_r. repeat split.
Qed.

(** ** What throws *)

Lemma write_collection (gs : list Geometry) :
  write w (MultiPoint gs) = writeGeometryCollection w gs WKBConstants.wkbMultiPoint
  /\ write w (MultiLineString gs)
     = writeGeometryCollection w gs WKBConstants.wkbMultiLineString
  /\ write w (MultiPolygon gs) = writeGeometryCollection w gs WKBConstants.wkbMultiPolygon
  /\ write w (GeometryCollection gs)
     = writeGeometryCollection w gs WKBConstants.wkbGeometryCollection.
Proof.
  assert (H : (fix elems (gs : list Geometry) : Write :=
                 match gs with
                 | [] => done
                 | elem :: rest => write w elem ;; elems rest
                 end) gs = forEach (write w) gs).
  { induction gs as [| e rest IH]; [reflexivity |]. cbn [forEach]. now rewrite <- IH. }
  unfold writeGeometryCollection. cbn [write]. rewrite H. repeat split.
Qed.

Definition emptyPointException : Exception :=
  IllegalArgumentException "Empty Points cannot be represented in WKB".

(** What a write does on a geometry, by whether it contains an empty Point. *)
Definition outcome (g : Geometry) (a : Write) : Prop :=
  forall os,
    if containsEmptyPoint g then a os = inl emptyPointException
    else exists bytes, a os = inr (os ++ bytes).

Lemma outcome_elements (gs : list Geometry) :
  Forall (fun g => outcome g (write w g)) gs ->
  forall os,
    if existsb containsEmptyPoint gs
    then forEach (write w) gs os = inl emptyPointException
    else exists bytes, forEach (write w) gs os = inr (os ++ bytes).
Proof.
  induction 1 as [| g rest Hg _ IH]; intros os; cbn [existsb forEach].
  - exists []. unfold done. now rewrite app_nil_r.
  - unfold andThen. specialize (Hg os).
    destruct (containsEmptyPoint g); cbn [orb].
    + now rewrite Hg.
    + destruct Hg as [bytes ->]. specialize (IH (os ++ bytes)).
      destruct (existsb containsEmptyPoint rest); [exact IH |].
      destruct IH as [more ->]. exists (bytes ++ more). now rewrite app_assoc.
Qed.

(** writeGeometryCollection writes its header (byte order, type, count) and
    then the elements. *)
Definition collectionHeader (gs : list Geometry) (wkbtype : Z) : list byte :=
  [byteOrder w mod 256]
  ++ putInt (Z.lor wkbtype (if outputDimension w =? 3 then to_int 2147483648 else 0))
            (byteOrder w)
  ++ putInt (Z.of_nat (length gs)) (byteOrder w).

Lemma writeGeometryCollection_header (gs : list Geometry) (wkbtype : Z) (os : list byte) :
  writeGeometryCollection w gs wkbtype os =
  forEach (write w) gs (os ++ collectionHeader gs wkbtype).
Proof.
  unfold writeGeometryCollection, writeByteOrder, writeGeometryType, writeInt,
    collectionHeader, andThen, emit.
  now rewrite <- !app_assoc.
Qed.

Lemma outcome_collection (gs : list Geometry) (wkbtype : Z) :
  Forall (fun g => outcome g (write w g)) gs ->
  forall os,
    if existsb containsEmptyPoint gs
    then writeGeometryCollection w gs wkbtype os = inl emptyPointException
    else exists bytes, writeGeometryCollection w gs wkbtype os = inr (os ++ bytes).
Proof.
  intros H os. rewrite writeGeometryCollection_header.
  pose proof (outcome_elements gs H (os ++ collectionHeader gs wkbtype)) as He.
  destruct (existsb containsEmptyPoint gs); [exact He |].
  destruct He as [bytes ->]. eexists. rewrite <- app_assoc. reflexivity.
Qed.

Ltac show_appends :=
  repeat first
    [ apply appends_emit
    | apply writeCoordinateSequence_appends
    | apply appends_done
    | eapply appends_andThen ].

Lemma writePoint_appends cs :
  cs_isEmpty cs = false -> exists bytes, appends (writePoint w cs) bytes.
Proof.
  intros H. unfold writePoint. cbn [isEmpty]. rewrite H.
  eexists. unfold writeGeometryType, writeInt, writeByteOrder. show_appends.
Qed.

Lemma writeLineString_appends cs : exists bytes, appends (writeLineString w cs) bytes.
Proof.
  unfold writeLineString.
  eexists. unfold writeGeometryType, writeInt, writeByteOrder. show_appends.
Qed.

Lemma writePolygon_appends shell holes :
  exists bytes, appends (writePolygon w shell holes) bytes.
Proof.
  unfold writePolygon.
  eexists. unfold writeGeometryType, writeInt, writeByteOrder.
  do 4 (eapply appends_andThen; [show_appends |]).
  apply appends_forEach with (bytesOf := fun cs => sequenceBytes cs true).
  intros cs _. apply writeCoordinateSequence_appends.
Qed.

Lemma write_outcome (g : Geometry) : outcome g (write w g).
Proof.
  induction g as [cs | cs | cs | sh hs | gs IH | gs IH | gs IH | gs IH]
    using RelateGeometryTheory.Geometry_nested_ind.
  - intros os. cbn [containsEmptyPoint write].
    destruct (cs_isEmpty cs) eqn:E.
    + unfold writePoint. cbn [isEmpty]. rewrite E. reflexivity.
    + destruct (writePoint_appends cs E) as [bytes H]. exists bytes. apply H.
  - intros os. destruct (writeLineString_appends cs) as [bytes H]. exists bytes. apply H.
  - intros os. destruct (writeLineString_appends cs) as [bytes H]. exists bytes. apply H.
  - intros os. destruct (writePolygon_appends sh hs) as [bytes H]. exists bytes. apply H.
  - intros os. rewrite (proj1 (write_collection gs)). now apply outcome_collection.
  - intros os. rewrite (proj1 (proj2 (write_collection gs))). now apply outcome_collection.
  - intros os. rewrite (proj1 (proj2 (proj2 (write_collection gs)))).
    now apply outcome_collection.
  - intros os. rewrite (proj2 (proj2 (proj2 (write_collection gs)))).
    now apply outcome_collection.
Qed.

End Writer.

(** C10.  [write] throws IllegalArgumentException exactly when the geometry
    contains an empty Point, at any depth of MultiPoints and collections;
    every other geometry (empty LineStrings, empty Polygons and empty
    collections among them) is written, the stream growing by the bytes.  The
    constructor throws IllegalArgumentException exactly when the output
    dimension is below 2 or above 3. *)
Theorem write_throws_iff_empty_Point {bov : ByteOrderValues} :
  (forall (w : WKBWriter) (g : Geometry) (os : list byte),
      (containsEmptyPoint g = true ->
       write w g os = inl (IllegalArgumentException "Empty Points cannot be represented in WKB"))
      /\ (containsEmptyPoint g = false -> exists bytes, write w g os = inr (os ++ bytes))
      /\ throws (write w g os) = containsEmptyPoint g)
  /\ (forall w os,
         throws (write w (LineString (seq2 [])) os) = false
         /\ throws (write w (Polygon (seq2 []) []) os) = false
         /\ throws (write w (MultiPoint []) os) = false
         /\ throws (write w (GeometryCollection []) os) = false
         /\ throws (write w (Point (seq2 [])) os) = true
         /\ throws (write w (GeometryCollection [MultiPoint [Point (seq2 [])]]) os) = true)
  /\ (forall dims bo,
         (dims < 2 \/ dims > 3 ->
          new_WKBWriter dims bo
          = inl (IllegalArgumentException "WKB output dimension must be 2 or 3"))
         /\ (2 <= dims <= 3 -> new_WKBWriter dims bo = inr (mkWKBWriter dims bo))).
Proof.
  assert (H : forall (w : WKBWriter) (g : Geometry) (os : list byte),
      (containsEmptyPoint g = true ->
       write w g os = inl (IllegalArgumentException "Empty Points cannot be represented in WKB"))
      /\ (containsEmptyPoint g = false -> exists bytes, write w g os = inr (os ++ bytes))
      /\ throws (write w g os) = containsEmptyPoint g).
  { intros w g os. pose proof (write_outcome w g os) as H.
    destruct (containsEmptyPoint g).
    - rewrite H. repeat split. discriminate.
    - destruct H as [bytes ->]. repeat split; [discriminate | now exists bytes]. }
  split; [exact H |]. split.
  - intros w os. repeat split; apply H.
  - intros dims bo. unfold new_WKBWriter. split.
    + intros Hd.
      replace ((dims <? 2) || (dims >? 3)) with true; [reflexivity |].
      symmetry. apply orb_true_iff.
      destruct Hd; [left; now apply Z.ltb_lt | right; apply Z.gtb_lt; lia].
    + intros Hd.
      replace ((dims <? 2) || (dims >? 3)) with false; [reflexivity |].
      symmetry. apply orb_false_iff.
      split; [apply Z.ltb_ge; lia | rewrite Z.gtb_ltb; apply Z.ltb_ge; lia].
Qed.

(** ** Instances, with the bytes of [io.standin] *)

Section Instances.
Import io.standin.

(** An instance of C9: the coordinate (1, 2, 3) of a 3-dimensional sequence,
    output dimension 3, little-endian: the 24 bytes are those of 1.0, of 2.0
    and of 1.0 again. *)
Lemma writeCoordinate_third_ordinate_is_X_witness :
  writeCoordinateSequence (mkWKBWriter 3 1) (seq3 [xyz 1 2 3]) false []
  = inr [0; 0; 0; 0; 0; 0; 240; 63;  0; 0; 0; 0; 0; 0; 0; 64;  0; 0; 0; 0; 0; 0; 240; 63].
Proof.
  rewrite (proj1 (proj1 (writeCoordinate_third_ordinate_is_X
                           (mkWKBWriter 3 1) (seq3 [xyz 1 2 3]) false [])
                        eq_refl eq_refl)).
  vm_compute. reflexivity.
Defined.

Example write_point_2d :
  write (mkWKBWriter 2 1) (Point (seq3 [xyz 1 2 3])) []
  = inr [1;  1; 0; 0; 0;  0; 0; 0; 0; 0; 0; 240; 63;  0; 0; 0; 0; 0; 0; 0; 64].
Proof. vm_compute. reflexivity. Qed.

Example write_point_3d :
  write (mkWKBWriter 3 1) (Point (seq3 [xyz 1 2 3])) []
  = inr [1;  1; 0; 0; 128;  0; 0; 0; 0; 0; 0; 240; 63;  0; 0; 0; 0; 0; 0; 0; 64;
         0; 0; 0; 0; 0; 0; 240; 63].
Proof. vm_compute. reflexivity. Qed.

(** An instance of C10: MULTIPOINT ((1 2), EMPTY) is refused, and
    GEOMETRYCOLLECTION (LINESTRING EMPTY, POLYGON EMPTY) is written. *)
Lemma write_throws_iff_empty_Point_witness :
  write (mkWKBWriter 2 1) (MultiPoint [Point (seq2 [xy 1 2]); Point (seq2 [])]) []
  = inl (IllegalArgumentException "Empty Points cannot be represented in WKB")
  /\ exists bytes,
      write (mkWKBWriter 2 1)
            (GeometryCollection [LineString (seq2 []); Polygon (seq2 []) []]) []
      = inr ([] ++ bytes).
Proof.
  split.
  - apply (proj1 (proj1 write_throws_iff_empty_Point (mkWKBWriter 2 1)
                    (MultiPoint [Point (seq2 [xy 1 2]); Point (seq2 [])]) [])).
    reflexivity.
  - apply (proj1 (proj2 (proj1 write_throws_iff_empty_Point (mkWKBWriter 2 1)
                           (GeometryCollection [LineString (seq2 []); Polygon (seq2 []) []])
                           []))).
    reflexivity.
Defined.

Example new_WKBWriter_dimensions :
  throws_ctor (new_WKBWriter 1 0) = true /\ throws_ctor (new_WKBWriter 2 0) = false
  /\ throws_ctor (new_WKBWriter 3 0) = false /\ throws_ctor (new_WKBWriter 4 0) = true.
Proof. repeat split. Qed.

End Instances.

End WKBWriterTheory.

(* ====================================================================== *)
(** * Further properties of RelateGeometry                                 *)
(* ====================================================================== *)

Module RelateGeometryMore.
Import geom relateng RelateGeometryTheory.

Section Wrapper.
Context {collab : Collaborators}.

(** ** The zero-length test over a collection *)

Lemma isZeroLength_LineString_true (line : CoordinateSequence) :
  isZeroLength_LineString line = true <->
  ((2 <= getSize line)%nat ->
   forall i, (i < getSize line)%nat -> equals2D (getAt line 0) (getAt line i) = true).
Proof.
  unfold isZeroLength_LineString.
  destruct (Nat.leb_spec 2 (getSize line)) as [Hle | Hlt].
  - rewrite isZeroLength_loop_true. split.
    + intros H _ i Hi. destruct i as [| i]; [| apply H; lia].
      apply equals2D_refl_left with (q := getAt line 1). apply H. lia.
    + intros H k Hk. apply (H Hle). lia.
  - split; [intros _ Hle; lia | reflexivity].
Qed.

(** On a collection (a GeometryCollection or a MultiPoint, MultiLineString,
    MultiPolygon) the geometry-level zero-length test has a result, and the
    result is true exactly when every LineString component with two points or
    more has all its vertices 2D-equal to its first vertex.  Components of
    other classes, and lines of fewer than two points, do not count: a
    collection without any LineString is reported zero-length. *)
Theorem isZeroLength_collection_iff (g : Geometry) (col : list Geometry) :
  static_cast_GeometryCollection g = Some col ->
  exists b,
    isZeroLength g = Some b
    /\ (b = true <->
        forall line, In (LineString line) (getAllGeometries col) ->
                     (2 <= getSize line)%nat ->
                     forall i, (i < getSize line)%nat ->
                               equals2D (getAt line 0) (getAt line i) = true).
Proof.
  intros Hc. exists (isZeroLength_elems (getAllGeometries col)).
  split; [now apply isZeroLength_collection |].
  rewrite isZeroLength_elems_forallb, forallb_forall. split.
  - intros H line Hin. apply isZeroLength_LineString_true. exact (H _ Hin).
  - intros H elem Hin. destruct elem; try reflexivity.
    apply isZeroLength_LineString_true. now apply H.
Qed.

(** ** Empty input *)

Lemma visited_empty (g : Geometry) :
  isEmpty g = true -> forall a, In a (visited g) -> isEmpty (fst a) = true.
Proof.
  induction g as [cs | cs | cs | sh hs | gs IH | gs IH | gs IH | gs IH]
    using Geometry_nested_ind; intros He a Ha;
    try (destruct Ha as [<- | []]; exact He).
  all: cbn [visited isEmpty] in *; rewrite forallb_forall in He;
       rewrite Forall_forall in IH; apply in_flat_map in Ha;
       destruct Ha as (c & Hc & Ha);
       destruct c; try (destruct Ha as [<- | []]; exact (He _ Hc));
       exact (IH _ Hc (He _ Hc) a Ha).
Qed.

Lemma extractSegmentStrings_empty isA env (rg : RelateGeometry) :
  isEmpty (geom rg) = true -> extractSegmentStrings isA env rg = ([], rg).
Proof.
  intros He. rewrite extractSegmentStrings_eq.
  assert (Hnone : extractedElements env (geom rg) = []).
  { unfold extractedElements.
    assert (H := visited_empty (geom rg) He).
    induction (visited (geom rg)) as [| a l IH]; [reflexivity |].
    cbn [filter]. unfold passes at 1. rewrite (H a (or_introl eq_refl)). cbn [negb andb].
    apply IH. intros b Hb. apply H. now right. }
  rewrite Hnone. cbn [numberFrom flat_map length Z.of_nat].
  rewrite Z.add_0_r. destruct rg; reflexivity.
Qed.

(** An empty input geometry is inert: [analyzeDimensions] returns at once
    and sets no flag, so no dimension is present, there are no edges and the
    real dimension is FALSE; and [extractSegmentStrings], with or without a
    filter envelope, yields no segment string and leaves the element counter
    where it was. *)
Theorem empty_input_is_inert (input : Geometry) (isPrepared : bool)
  (bnRule : BoundaryNodeRule) (zeroLen : bool) :
  isEmpty input = true ->
  let rg := initialised input isPrepared bnRule zeroLen in
  analyzeDimensions rg = Some rg
  /\ getDimensionReal rg = Dimension.False
  /\ (forall dim, hasDimension rg dim = false)
  /\ hasEdges rg = false
  /\ (forall isA env, extractSegmentStrings isA env rg = ([], rg)).
Proof.
  intros He rg. subst rg. split; [| split; [| split; [| split]]].
  - unfold analyzeDimensions. cbn [isGeomEmpty initialised]. now rewrite He.
  - unfold getDimensionReal. cbn [isGeomEmpty initialised]. now rewrite He.
  - intros dim. unfold hasDimension. cbn [hasPoints hasLines hasAreas initialised].
    destruct (dim =? Dimension.P), (dim =? Dimension.L), (dim =? Dimension.A); reflexivity.
  - reflexivity.
  - intros isA env. apply extractSegmentStrings_empty. exact He.
Qed.

(** ** The flags and the real dimension *)

Ltac dims :=
  unfold Dimension.False, Dimension.P, Dimension.L, Dimension.A in *.

(** The flags after [analyzeDimensions], told from the components of the
    input. *)
Lemma analysed_present (input : Geometry) (isPrepared : bool)
  (bnRule : BoundaryNodeRule) (zeroLen : bool) (rg : RelateGeometry) :
  isEmpty input = false -> well_typed input = true ->
  analyzeDimensions (initialised input isPrepared bnRule zeroLen) = Some rg ->
  hasPoints rg = present isPoint (components input)
  /\ hasLines rg = present isLineString (components input)
  /\ hasAreas rg = present isPolygon (components input).
Proof.
  intros Hne Hw. unfold analyzeDimensions. cbn [isGeomEmpty initialised geom]. rewrite Hne.
  destruct input as [cs | cs | cs | sh hs | gs | gs | gs | gs];
    cbn [getGeometryTypeId typeId_eqb orb static_cast_GeometryCollection];
    try discriminate; intros [= <-].
  - simpl in Hne |- *. unfold present. simpl. rewrite Hne. repeat split.
  - simpl in Hne |- *. unfold present. simpl. rewrite Hne. repeat split.
  - simpl in Hne |- *. unfold present. simpl. rewrite Hne. repeat split.
  - simpl in Hne, Hw. cbn [components].
    rewrite (components_typed isPoint gs) by (try assumption; intros []; easy).
    destruct (present_typed isPoint isLineString gs Hw Hne) as [-> ->];
      [intros []; easy |].
    destruct (present_typed isPoint isPolygon gs Hw Hne) as [_ ->];
      [intros []; easy |]. repeat split.
  - simpl in Hne, Hw. cbn [components].
    rewrite (components_typed isLineString gs) by (try assumption; intros []; easy).
    destruct (present_typed isLineString isPoint gs Hw Hne) as [-> ->];
      [intros []; easy |].
    destruct (present_typed isLineString isPolygon gs Hw Hne) as [_ ->];
      [intros []; easy |]. repeat split.
  - simpl in Hne, Hw. cbn [components].
    rewrite (components_typed isPolygon gs) by (try assumption; intros []; easy).
    destruct (present_typed isPolygon isPoint gs Hw Hne) as [-> ->];
      [intros []; easy |].
    destruct (present_typed isPolygon isLineString gs Hw Hne) as [_ ->];
      [intros []; easy |]. repeat split.
  - pose proof (analyzeDimensions_loop_flags (getAllGeometries gs)
                  (initialised (GeometryCollection gs) isPrepared bnRule zeroLen)) as F.
    simpl in F. destruct F as (Fp & Fl & Fa & _). rewrite Fp, Fl, Fa. repeat split.
Qed.

Lemma nonempty_component (g : Geometry) :
  isEmpty g = false -> existsb (fun e => negb (isEmpty e)) (components g) = true.
Proof.
  induction g as [cs | cs | cs | sh hs | gs IH | gs IH | gs IH | gs IH]
    using Geometry_nested_ind; intros Hne;
    try (cbn [components existsb]; rewrite Hne; reflexivity).
  all: cbn [isEmpty components] in *; apply existsb_exists;
       assert (Hex : exists c, In c gs /\ isEmpty c = false)
         by (clear IH; induction gs as [| a l IHl]; [discriminate |];
             cbn [forallb] in Hne; destruct (isEmpty a) eqn:Ea;
             [ destruct (IHl Hne) as (c & Hc & He); exists c; split; [now right | exact He]
             | exists a; split; [now left | exact Ea] ]);
       destruct Hex as (c & Hc & Hce); rewrite Forall_forall in IH;
       specialize (IH c Hc Hce); apply existsb_exists in IH;
       destruct IH as (e & He & Hee); exists e; split; [| exact Hee];
       apply in_flat_map; exists c; split; assumption.
Qed.

Lemma maxDimension_by_presence (input : Geometry) :
  ringFree input = true ->
  maxDimension input =
    if containsDimension Dimension.A input then Dimension.A
    else if containsDimension Dimension.L input then Dimension.L
    else if containsDimension Dimension.P input then Dimension.P
    else Dimension.False.
Proof.
  intros Hr. apply components_ringFree in Hr.
  unfold maxDimension, containsDimension, nonEmptyElements.
  induction Hr as [| e rest He _ IH]; [reflexivity |].
  cbn [filter]. destruct (isEmpty e); cbn [negb]; [exact IH |].
  cbn [map fold_right existsb]. rewrite IH.
  destruct e; simpl in He; try discriminate; cbn [getDimension]; dims;
    cbn [Z.eqb Pos.eqb orb];
    repeat match goal with
           | |- context [if ?c then _ else _] => destruct c
           end; reflexivity.
Qed.

(** For a non-empty input made of Points, LineStrings and Polygons,
    [getDimensionReal] is P when the dimension is L and the lines are
    zero-length, and in every other case it is the largest dimension among
    the non-empty elements of the input.  It does not count empty elements,
    where [getDimension] (the cached [geomDim]) does. *)
Theorem getDimensionReal_is_max_of_nonempty (input : Geometry) (isPrepared : bool)
  (bnRule : BoundaryNodeRule) (zeroLen : bool) (rg : RelateGeometry) :
  isEmpty input = false -> well_typed input = true -> ringFree input = true ->
  analyzeDimensions (initialised input isPrepared bnRule zeroLen) = Some rg ->
  (getDimension_ rg = Dimension.L -> zeroLen = true -> getDimensionReal rg = Dimension.P)
  /\ (getDimension_ rg <> Dimension.L \/ zeroLen = false ->
      getDimensionReal rg = maxDimension input).
Proof.
  intros Hne Hw Hr Ha.
  destruct (analysed_present _ _ _ _ _ Hne Hw Ha) as (Hp & Hl & Har).
  destruct (analyzeDimensions_frame _ _ Ha) as (_ & _ & Hz & He & _).
  cbn [isLineZeroLen isGeomEmpty initialised] in Hz, He.
  unfold getDimensionReal. rewrite He, Hne, Hz. split.
  - intros -> ->. reflexivity.
  - intros Hcase.
    replace ((getDimension_ rg =? Dimension.L) && zeroLen) with false
      by (destruct Hcase as [Hd | ->];
          [apply Z.eqb_neq in Hd; now rewrite Hd | now rewrite andb_false_r]).
    rewrite (maxDimension_by_presence input Hr).
    destruct (containsDimension_present input Hr) as (-> & -> & ->).
    rewrite <- Hp, <- Hl, <- Har.
    destruct (hasAreas rg) eqn:Ea; [reflexivity |].
    destruct (hasLines rg) eqn:El; [reflexivity |].
    pose proof (nonempty_component input Hne) as Hex.
    apply existsb_exists in Hex. destruct Hex as (e & Hin & Hee).
    apply components_ringFree in Hr. rewrite Forall_forall in Hr. specialize (Hr e Hin).
    assert (Hk : forall kind, kind e = true -> present kind (components input) = true).
    { intros kind Hk. apply existsb_exists. exists e.
      split; [exact Hin | now rewrite Hee, Hk]. }
    destruct (isPolygon e) eqn:Ek; [rewrite (Hk _ Ek) in Har; discriminate |].
    destruct (isLineString e) eqn:Ek'; [rewrite (Hk _ Ek') in Hl; discriminate |].
    destruct (isPoint e) eqn:Ek''; [| discriminate].
    rewrite Hp, (Hk _ Ek''). reflexivity.
Qed.

(** ** Segment strings and the flags *)

Lemma visited_atomic_component (p_geom : Geometry) :
  forall g q, In (g, q) (visited p_geom) -> isAtomic g = true ->
              In g (components p_geom).
Proof.
  induction p_geom as [cs | cs | cs | sh hs | gs IH | gs IH | gs IH | gs IH]
    using Geometry_nested_ind; intros g q H Hat;
    try (destruct H as [[= <- <-] | []]; now left).
  all: cbn [visited components] in *; apply in_flat_map in H;
       destruct H as (c & Hc & H); apply in_flat_map; exists c; split; [exact Hc |];
       rewrite Forall_forall in IH; specialize (IH c Hc);
       destruct c;
       try (destruct H as [[= <- <-] | []]; solve [now left | discriminate]);
       exact (IH g q H Hat).
Qed.

(** Segment strings come only from a geometry that has edges: when the input
    holds elements of the classes its collections are typed for, and a call
    of [extractSegmentStrings] yields a segment string, [hasEdges] is true;
    a line's string (ring id -1) means [hasLines] and a ring's string means
    [hasAreas]. *)
Theorem segment_strings_need_edges (input : Geometry) (isPrepared : bool)
  (bnRule : BoundaryNodeRule) (zeroLen : bool) (rg : RelateGeometry)
  isA env (ss : RelateSegmentString) :
  well_typed input = true ->
  analyzeDimensions (initialised input isPrepared bnRule zeroLen) = Some rg ->
  In ss (fst (extractSegmentStrings isA env rg)) ->
  hasEdges rg = true
  /\ (ss_ringId ss = -1 -> hasLines rg = true)
  /\ (0 <= ss_ringId ss -> hasAreas rg = true).
Proof.
  intros Hw Ha Hin.
  destruct (analyzeDimensions_frame _ _ Ha) as (Hg & _). cbn [geom initialised] in Hg.
  apply segment_string_origin in Hin. rewrite Hg in Hin.
  destruct Hin as (id & g & q & Hv & Hp & _ & Hss).
  unfold passes in Hp. apply andb_true_iff in Hp. destruct Hp as [Hge _].
  apply negb_true_iff in Hge.
  assert (Hne : isEmpty input = false).
  { destruct (isEmpty input) eqn:E; [| reflexivity].
    pose proof (visited_empty input E _ Hv) as Hge'. cbn [fst] in Hge'.
    rewrite Hge' in Hge. discriminate. }
  destruct (analysed_present _ _ _ _ _ Hne Hw Ha) as (_ & Hl & Har).
  assert (Hk : forall kind, kind g = true -> isAtomic g = true ->
                            present kind (components input) = true).
  { intros kind Hk Hat. apply existsb_exists. exists g.
    split; [exact (visited_atomic_component _ _ _ Hv Hat) | now rewrite Hge, Hk]. }
  unfold hasEdges. apply segmentStringsOf_cases in Hss.
  destruct Hss as [(cs & -> & ->) | (shell & holes & i & r & -> & Hr & _ & ->)].
  - rewrite Hl, (Hk isLineString eq_refl eq_refl). repeat split.
    cbn [ss_ringId createLine]. lia.
  - rewrite Har, (Hk isPolygon eq_refl eq_refl), orb_true_r. repeat split.
    cbn [ss_ringId createRing]. intros ->.
    apply rings_ids_nonnegative in Hr. lia.
Qed.

(** ** What extractSegmentStrings leaves alone *)

(** A call of [extractSegmentStrings] changes no member of the RelateGeometry
    but the element counter, which it never lowers.  Every segment string of
    the result carries the [isA] flag of the call and an element id above the
    counter's old value and up to its new one; its ring id is -1 or more, and
    it has no parent polygon exactly when it is a line's (ring id -1). *)
Theorem extractSegmentStrings_touches_only_elementId isA env (rg : RelateGeometry) :
  snd (extractSegmentStrings isA env rg)
  = set_elementId (elementId (snd (extractSegmentStrings isA env rg))) rg
  /\ elementId rg <= elementId (snd (extractSegmentStrings isA env rg))
  /\ (forall ss,
         In ss (fst (extractSegmentStrings isA env rg)) ->
         ss_isA ss = isA
         /\ elementId rg < ss_elementId ss
            <= elementId (snd (extractSegmentStrings isA env rg))
         /\ -1 <= ss_ringId ss
         /\ (ss_ringId ss = -1 <-> ss_parentPolygonal ss = None)).
Proof.
  split; [| split].
  - rewrite extractSegmentStrings_eq. reflexivity.
  - rewrite extractSegmentStrings_eq. cbn [snd elementId set_elementId]. lia.
  - intros ss Hin. apply segment_string_origin in Hin.
    destruct Hin as (id & g & q & _ & _ & Hid & Hss).
    rewrite extractSegmentStrings_eq. cbn [snd elementId set_elementId].
    apply segmentStringsOf_cases in Hss.
    destruct Hss as [(cs & -> & ->) | (shell & holes & i & r & -> & Hr & _ & ->)].
    + cbn [ss_isA ss_elementId ss_ringId ss_parentPolygonal createLine].
      repeat split; lia.
    + apply rings_ids_nonnegative in Hr.
      cbn [ss_isA ss_elementId ss_ringId ss_parentPolygonal createRing].
      repeat split; try lia. discriminate.
Qed.

(** A filter envelope only removes: a segment string of the filtered call is
    also in the result of the call without a filter, with the same
    coordinates, ring id, parent polygon and [isA] flag.  (The element ids may
    differ: the counter advances only for the elements that pass.) *)
Theorem filter_only_removes isA (e : Envelope) (rg : RelateGeometry)
  (ss : RelateSegmentString) :
  In ss (fst (extractSegmentStrings isA (Some e) rg)) ->
  exists ss',
    In ss' (fst (extractSegmentStrings isA None rg))
    /\ ss_pts ss' = ss_pts ss /\ ss_ringId ss' = ss_ringId ss
    /\ ss_parentPolygonal ss' = ss_parentPolygonal ss /\ ss_isA ss' = ss_isA ss.
Proof.
  intros Hin. apply segment_string_origin in Hin.
  destruct Hin as (id & g & q & Hv & Hp & _ & Hss).
  unfold passes in Hp. apply andb_true_iff in Hp. destruct Hp as [Hge _].
  assert (Hp' : passes None g = true) by (unfold passes; now rewrite Hge).
  destruct (segment_string_produced isA None rg g q Hv Hp') as [id' Hid'].
  apply segmentStringsOf_cases in Hss.
  destruct Hss as [(cs & -> & ->) | (shell & holes & i & r & -> & Hr & Hrp & ->)].
  - exists (createLine cs isA id'). split; [apply Hid'; now left | repeat split].
  - exists (createRing r isA id' i
              (parentPolyOf (Polygon shell holes) (parentPolygonalOf q))).
    split; [| repeat split].
    apply Hid'. cbn [segmentStringsOf]. apply in_map_iff. exists (i, r).
    split; [reflexivity |]. apply filter_In. split; [exact Hr |].
    unfold ringPasses, passes in *. apply andb_true_iff in Hrp.
    destruct Hrp as [Hrne _]. cbn [snd]. now rewrite Hrne.
Qed.

(** ** The linework that is extracted *)

(** The coordinate sequences an atomic element stands for: a non-empty
    line, or the non-empty rings of a non-empty polygon. *)
Definition linework (g : Geometry) : list CoordinateSequence :=
  if isEmpty g then []
  else match g with
       | LineString cs => [cs]
       | Polygon shell holes => filter (fun r => negb (cs_isEmpty r)) (shell :: holes)
       | _ => []
       end.

Lemma numberFrom_snd {A : Type} (items : list A) :
  forall k, map snd (numberFrom k items) = items.
Proof.
  induction items as [| a rest IH]; intros k; [reflexivity |].
  cbn [numberFrom map snd]. now rewrite IH.
Qed.

Lemma segmentStringsOf_pts isA id (g : Geometry) par :
  isEmpty g = false ->
  map ss_pts (segmentStringsOf isA None id g par) = linework g.
Proof.
  intros Hne. unfold linework. rewrite Hne.
  destruct g; try reflexivity. cbn [segmentStringsOf]. rewrite map_map.
  cbn [ss_pts createRing].
  assert (H : forall l : list (Z * CoordinateSequence),
             map (fun r => snd r) (filter (fun r => ringPasses None (snd r)) l)
             = filter (fun r => negb (cs_isEmpty r)) (map snd l)).
  { induction l as [| [i r] l IH]; [reflexivity |]. cbn [filter map snd].
    unfold ringPasses at 1, passes. cbn [isEmpty env_intersects]. rewrite andb_true_r.
    destruct (cs_isEmpty r); cbn [negb map snd]; now rewrite IH. }
  rewrite H. unfold rings. cbn [map snd]. now rewrite numberFrom_snd.
Qed.

(** Without a filter envelope, on a geometry that has no typed collection
    among the elements of a GeometryCollection, the coordinate sequences of
    the segment strings are, in order, those of the atomic components of the
    geometry: each non-empty LineString, and each non-empty ring of each
    non-empty Polygon (shell first); Points contribute nothing. *)
Theorem extractSegmentStrings_is_the_linework isA (rg : RelateGeometry) :
  plainlyNested (geom rg) = true ->
  map ss_pts (fst (extractSegmentStrings isA None rg))
  = flat_map linework (components (geom rg)).
Proof.
  intros Hp. rewrite <- (visited_components _ Hp), extractSegmentStrings_eq.
  cbn [fst]. unfold extractedElements. generalize (elementId rg + 1).
  induction (visited (geom rg)) as [| [g q] l IH]; intros k; [reflexivity |].
  cbn [filter map flat_map fst]. unfold passes at 1. cbn [env_intersects].
  rewrite andb_true_r. destruct (isEmpty g) eqn:E; cbn [negb].
  - rewrite IH. unfold linework at 2. now rewrite E.
  - cbn [numberFrom flat_map]. rewrite map_app, IH. f_equal.
    unfold stringsOfNumbered. cbn [fst snd]. now apply segmentStringsOf_pts.
Qed.

(** ** isPolygonal and isPointsOrPolygons *)

(** For a non-empty input that is a Polygon or a MultiPolygon ([isPolygonal])
    the analysis sets hasAreas and nothing else, and the dimension and the
    real dimension are both A.  For a non-empty input that [isPointsOrPolygons]
    accepts no line is present, so the edges are exactly the areas and the
    real dimension is the cached one, whatever the zero-length flag is. *)
Theorem polygonal_input_has_only_areas (input : Geometry) (isPrepared : bool)
  (bnRule : BoundaryNodeRule) (zeroLen : bool) (rg : RelateGeometry) :
  isEmpty input = false ->
  analyzeDimensions (initialised input isPrepared bnRule zeroLen) = Some rg ->
  (isPolygonal rg = true ->
   hasAreas rg = true /\ hasLines rg = false /\ hasPoints rg = false
   /\ getDimension_ rg = Dimension.A /\ getDimensionReal rg = Dimension.A)
  /\ (isPointsOrPolygons rg = true ->
      hasLines rg = false /\ hasEdges rg = hasAreas rg
      /\ getDimensionReal rg = getDimension_ rg).
Proof.
  intros Hne Ha.
  destruct (analyzeDimensions_frame _ _ Ha) as (Hg & _ & _ & He & _).
  cbn [geom isGeomEmpty initialised] in Hg, He.
  unfold isPolygonal, isPointsOrPolygons, getDimensionReal, hasEdges, getDimension_.
  rewrite Hg, He, Hne. revert Ha. unfold analyzeDimensions.
  cbn [isGeomEmpty initialised geom]. rewrite Hne.
  destruct input; cbn [getGeometryTypeId typeId_eqb orb static_cast_GeometryCollection];
    try discriminate; intros [= <-]; split; try discriminate; intros _; repeat split.
Qed.

End Wrapper.

(** ** getEffectivePoints() *)

Section EffectivePoints.
Context {collab : Collaborators}.

(** [PointExtracter::getPoints] (the Points of a geometry, each given by its
    coordinates) and [DimensionLocation::dimension]: their code is outside
    these files. *)
Variable PointExtracter_getPoints : Geometry -> list CoordinateSequence.
Variable DimensionLocation_dimension : Z -> Z.

(** [p->getCoordinate()]: the coordinate of a Point, the null pointer for an
    empty one. *)
Definition Point_getCoordinate (p : CoordinateSequence) : option Coordinate :=
  nth_error (cs_coords p) 0.

(** The loop over [ptListAll], [ptList] being the vector filled so far.  A
    null coordinate pointer goes to the locator, whose code is outside these
    files: the call has no result here. *)
Fixpoint getEffectivePoints_loop (pts : list CoordinateSequence) (w : World)
  (ptList : list CoordinateSequence) : option (list CoordinateSequence * World) :=
  match pts with
  | [] => Some (ptList, w)
  | p :: rest =>
      match Point_getCoordinate p with
      | None => None
      | Some c =>
          match locateWithDim c w with
          | None => None
          | Some (locDim, _, w') =>
              getEffectivePoints_loop rest w'
                (if DimensionLocation_dimension locDim =? Dimension.P
                 then ptList ++ [p] else ptList)
          end
      end
  end.

Definition getEffectivePoints (w : World) : option (list CoordinateSequence * World) :=
  let ptListAll := PointExtracter_getPoints (geom (this w)) in
  if getDimensionReal (this w) <=? Dimension.P then Some (ptListAll, w)
  else getEffectivePoints_loop ptListAll w [].

Lemma getEffectivePoints_loop_spec (pts : list CoordinateSequence) :
  forall w ptList,
    valid w -> Forall (fun p => cs_isEmpty p = false) pts ->
    exists kept w',
      getEffectivePoints_loop pts w ptList = Some (ptList ++ kept, w')
      /\ incl kept pts /\ (length kept <= length pts)%nat
      /\ valid w'
      /\ match locator (this w) with
         | Some _ => length (locators w') = length (locators w)
         | None => (length (locators w') <= S (length (locators w)))%nat
         end.
Proof.
  induction pts as [| p rest IH]; intros w ptList Hv Hall; cbn [getEffectivePoints_loop].
  - exists [], w. rewrite app_nil_r. repeat split; try easy.
    destruct (locator (this w)); lia.
  - inversion Hall as [| ? ? Hp Hrest]; subst.
    unfold Point_getCoordinate, cs_isEmpty in *.
    destruct (cs_coords p) as [| c cs]; [discriminate |]. cbn [nth_error].
    unfold locateWithDim.
    destruct (call_locator_spec (fun l => Locator_locateWithDim l c) w Hv)
      as (locDim & ptr & w1 & -> & Hl1 & Hv1 & Hgrow).
    destruct (IH w1 (if DimensionLocation_dimension locDim =? Dimension.P
                     then ptList ++ [p] else ptList) Hv1 Hrest)
      as (kept & w' & -> & Hincl & Hlen & Hv' & Hsame).
    rewrite Hl1 in Hsame.
    destruct (DimensionLocation_dimension locDim =? Dimension.P).
    + exists (p :: kept), w'. rewrite <- app_assoc. cbn [app length].
      split; [reflexivity |]. split; [| split; [lia | split; [exact Hv' |]]].
      * intros a [<- | Ha]; [now left | right; now apply Hincl].
      * destruct (locator (this w)); [destruct Hgrow as [_ Hg] |]; lia.
    + exists kept, w'. cbn [length].
      split; [reflexivity |]. split; [| split; [lia | split; [exact Hv' |]]].
      * intros a Ha. right. now apply Hincl.
      * destruct (locator (this w)); [destruct Hgrow as [_ Hg] |]; lia.
Qed.

(** [getEffectivePoints] returns Points of the geometry only, never more
    than [PointExtracter::getPoints] lists; for a geometry of real dimension P
    or less it returns them all and does not touch the locator, and otherwise
    it builds at most one locator while it asks for each point's location.
    (The points must have a coordinate, and the locator pointer must be null
    or point to a locator.) *)
Theorem getEffectivePoints_keeps_points_only (w : World) :
  valid w ->
  Forall (fun p => cs_isEmpty p = false) (PointExtracter_getPoints (geom (this w))) ->
  exists pts w',
    getEffectivePoints w = Some (pts, w')
    /\ incl pts (PointExtracter_getPoints (geom (this w)))
    /\ (length pts <= length (PointExtracter_getPoints (geom (this w))))%nat
    /\ (constructs w w' <= 1)%nat
    /\ (getDimensionReal (this w) <= Dimension.P ->
        pts = PointExtracter_getPoints (geom (this w)) /\ w' = w).
Proof.
  intros Hv Hall. unfold getEffectivePoints, constructs.
  destruct (Z.leb_spec (getDimensionReal (this w)) Dimension.P) as [Hle | Hgt].
  - exists (PointExtracter_getPoints (geom (this w))), w.
    split; [reflexivity |]. split; [apply incl_refl |]. split; [lia |].
    split; [lia |]. intros _. split; reflexivity.
  - destruct (getEffectivePoints_loop_spec _ w [] Hv Hall)
      as (kept & w' & Hrun & Hincl & Hlen & _ & Hsame).
    exists kept, w'. split; [exact Hrun |]. split; [exact Hincl |].
    split; [exact Hlen |]. split; [destruct (locator (this w)); lia | lia].
Qed.

End EffectivePoints.

(** ** Instances on concrete geometries *)

Section Instances.
Import standin.

Definition line_3_4_twice : Geometry := LineString (seq2 [xy 3 4; xy 3 4]).
Definition point_empty : Geometry := Point (seq2 []).

(** MULTILINESTRING ((3 4, 3 4), (0 0, 1 1)): the test has a result. *)
Lemma isZeroLength_collection_iff_witness :
  exists b,
    isZeroLength (MultiLineString [line_3_4_twice; line_0_0_1_1]) = Some b
    /\ (b = true <->
        forall line,
          In (LineString line) (getAllGeometries [line_3_4_twice; line_0_0_1_1]) ->
          (2 <= getSize line)%nat ->
          forall i, (i < getSize line)%nat ->
                    equals2D (getAt line 0) (getAt line i) = true).
Proof.
  exact (isZeroLength_collection_iff
           (MultiLineString [line_3_4_twice; line_0_0_1_1])
           [line_3_4_twice; line_0_0_1_1] eq_refl).
Defined.

Example isZeroLength_collections :
  isZeroLength (MultiLineString [line_3_4_twice; line_0_0_1_1]) = Some false
  /\ isZeroLength (MultiLineString [line_3_4_twice]) = Some true
  /\ isZeroLength (GeometryCollection [point_1_1; MultiPolygon [square]]) = Some true.
Proof. vm_compute. repeat split. Qed.

(** GEOMETRYCOLLECTION (POINT EMPTY, POLYGON EMPTY) yields nothing. *)
Lemma empty_input_is_inert_witness :
  extractSegmentStrings true None
    (initialised (collab := collaborators)
       (GeometryCollection [point_empty; polygon_empty]) false Mod2 true)
  = ([], initialised (collab := collaborators)
           (GeometryCollection [point_empty; polygon_empty]) false Mod2 true).
Proof.
  exact (proj2 (proj2 (proj2 (proj2
           (empty_input_is_inert (collab := collaborators)
              (GeometryCollection [point_empty; polygon_empty]) false Mod2 true eq_refl))))
           true None).
Defined.

(** GEOMETRYCOLLECTION (POINT (1 1), POLYGON EMPTY): the cached dimension is
    A and the real dimension is P, the maximum over the non-empty elements. *)
Lemma getDimensionReal_is_max_of_nonempty_witness :
  exists rg,
    analyzeDimensions
      (initialised (collab := collaborators)
         (GeometryCollection [point_1_1; polygon_empty]) false Mod2 true) = Some rg
    /\ getDimension_ rg = Dimension.A
    /\ getDimensionReal rg = maxDimension (GeometryCollection [point_1_1; polygon_empty])
    /\ maxDimension (GeometryCollection [point_1_1; polygon_empty]) = Dimension.P.
Proof.
  eexists. split; [vm_compute; reflexivity |]. split; [reflexivity |].
  split; [| reflexivity].
  apply (proj2 (getDimensionReal_is_max_of_nonempty (collab := collaborators)
                  (GeometryCollection [point_1_1; polygon_empty]) false Mod2 true _
                  eq_refl eq_refl eq_refl eq_refl)).
  left. discriminate.
Defined.

(** MULTILINESTRING ((0 0, 1 1)): its segment string shows lines. *)
Lemma segment_strings_need_edges_witness :
  exists rg,
    analyzeDimensions
      (initialised (collab := collaborators)
         (MultiLineString [line_0_0_1_1]) false Mod2 false) = Some rg
    /\ In (createLine (seq2 [xy 0 0; xy 1 1]) true 1)
          (fst (extractSegmentStrings true None rg))
    /\ hasEdges rg = true /\ hasLines rg = true.
Proof.
  eexists. split; [vm_compute; reflexivity |].
  assert (Hin : In (createLine (seq2 [xy 0 0; xy 1 1]) true 1)
                   (fst (extractSegmentStrings (collab := collaborators) true None
                           (mkRelateGeometry (collab := collaborators)
                              (MultiLineString [line_0_0_1_1]) false
                              (getEnvelopeInternal (MultiLineString [line_0_0_1_1]))
                              Mod2 1 false false false true false 0 None []))))
    by (vm_compute; left; reflexivity).
  split; [exact Hin |].
  destruct (segment_strings_need_edges (collab := collaborators)
              (MultiLineString [line_0_0_1_1]) false Mod2 false _ true None _
              eq_refl eq_refl Hin) as (He & Hl & _).
  split; [exact He | exact (Hl eq_refl)].
Defined.

(** The polygon with a hole under the filter [0,1] x [0,1]: the shell, which
    the filtered call yields, is in the unfiltered result too. *)
Lemma filter_only_removes_witness :
  exists rg ss',
    constructed (MultiPolygon [squareWithHole]) = Some rg
    /\ In ss' (fst (extractSegmentStrings true None rg))
    /\ ss_pts ss' = seq2 [xy 0 0; xy 10 0; xy 10 10; xy 0 10; xy 0 0]
    /\ ss_ringId ss' = 0.
Proof.
  destruct (constructed (MultiPolygon [squareWithHole])) as [rg |] eqn:E;
    [| vm_compute in E; discriminate].
  assert (Hin : In (createRing (seq2 [xy 0 0; xy 10 0; xy 10 10; xy 0 10; xy 0 0]) true 1 0
                      (MultiPolygon [squareWithHole]))
                   (fst (extractSegmentStrings true
                           (Some (Some (mkBox (dbl 0) (dbl 1) (dbl 0) (dbl 1)))) rg))).
  { vm_compute in E. injection E as <-. vm_compute. left. reflexivity. }
  destruct (filter_only_removes (collab := collaborators) true _ rg _ Hin)
    as (ss' & Hin' & Hpts & Hid & _).
  exists rg, ss'. split; [reflexivity |]. split; [exact Hin' |].
  split; [exact Hpts | exact Hid].
Defined.

(** GEOMETRYCOLLECTION (POINT (1 1), LINESTRING (0 0, 1 1), polygon with a
    hole): the line, the shell and the hole. *)
Lemma extractSegmentStrings_is_the_linework_witness :
  exists rg,
    constructed (GeometryCollection [point_1_1; line_0_0_1_1; squareWithHole]) = Some rg
    /\ map ss_pts (fst (extractSegmentStrings true None rg))
       = [seq2 [xy 0 0; xy 1 1];
          seq2 [xy 0 0; xy 10 0; xy 10 10; xy 0 10; xy 0 0];
          seq2 [xy 4 4; xy 6 4; xy 6 6; xy 4 6; xy 4 4]].
Proof.
  destruct (constructed (GeometryCollection [point_1_1; line_0_0_1_1; squareWithHole]))
    as [rg |] eqn:E; [| vm_compute in E; discriminate].
  exists rg. split; [reflexivity |].
  assert (Hg : geom rg = GeometryCollection [point_1_1; line_0_0_1_1; squareWithHole])
    by (vm_compute in E; injection E as <-; reflexivity).
  rewrite (extractSegmentStrings_is_the_linework (collab := collaborators) true rg)
    by (rewrite Hg; reflexivity).
  rewrite Hg. reflexivity.
Defined.

(** POLYGON ((0 0, 10 0, 10 10, 0 10, 0 0)). *)
Lemma polygonal_input_has_only_areas_witness :
  exists rg,
    analyzeDimensions (initialised (collab := collaborators) square false Mod2 true)
    = Some rg
    /\ hasAreas rg = true /\ hasLines rg = false /\ hasPoints rg = false
    /\ getDimension_ rg = Dimension.A /\ getDimensionReal rg = Dimension.A.
Proof.
  eexists. split; [vm_compute; reflexivity |].
  exact (proj1 (polygonal_input_has_only_areas (collab := collaborators)
                  square false Mod2 true _ eq_refl eq_refl) eq_refl).
Defined.

(** Stand-ins for the two functions [getEffectivePoints] calls beside the
    locator: the Point components, and the dimension of a location code
    (FALSE for EXTERIOR, the only answer of the stand-in locator). *)
Definition pointsOf (g : Geometry) : list CoordinateSequence :=
  flat_map (fun c => match c with Point cs => [cs] | _ => [] end) (components g).
Definition dimensionOf (locDim : Z) : Z :=
  if locDim =? 2 then Dimension.False else locDim / 10 - 10.

(** GEOMETRYCOLLECTION (POINT (1 1), LINESTRING (0 0, 1 1)): real dimension
    L, so the point is looked up, through a locator built for it. *)
Lemma getEffectivePoints_keeps_points_only_witness :
  exists rg pts w',
    constructed (GeometryCollection [point_1_1; line_0_0_1_1]) = Some rg
    /\ getEffectivePoints pointsOf dimensionOf (mkWorld rg []) = Some (pts, w')
    /\ incl pts (pointsOf (geom rg))
    /\ (constructs (mkWorld rg []) w' <= 1)%nat.
Proof.
  destruct (constructed (GeometryCollection [point_1_1; line_0_0_1_1]))
    as [rg |] eqn:E; [| vm_compute in E; discriminate].
  assert (Hv : valid (mkWorld rg []))
    by (vm_compute in E; injection E as <-; exact I).
  assert (Hall : Forall (fun p => cs_isEmpty p = false)
                        (pointsOf (geom (this (mkWorld rg [])))))
    by (vm_compute in E; injection E as <-; repeat constructor).
  destruct (getEffectivePoints_keeps_points_only (collab := collaborators)
              pointsOf dimensionOf (mkWorld rg []) Hv Hall)
    as (pts & w' & Hrun & Hincl & _ & Hcons & _).
  exists rg, pts, w'. split; [reflexivity |]. split; [exact Hrun |].
  split; [exact Hincl | exact Hcons].
Defined.

Example getEffectivePoints_runs :
  option_map
    (fun rg => option_map (fun r => (fst r, length (locators (snd r))))
                 (getEffectivePoints pointsOf dimensionOf (mkWorld rg [])))
    (constructed (GeometryCollection [point_1_1; line_0_0_1_1]))
  = Some (Some ([], 1%nat))
  /\ option_map
       (fun rg => option_map (fun r => (fst r, length (locators (snd r))))
                    (getEffectivePoints pointsOf dimensionOf (mkWorld rg [])))
       (constructed (MultiPoint [point_1_1]))
     = Some (Some ([seq2 [xy 1 1]], 0%nat)).
Proof. vm_compute. split; reflexivity. Qed.

End Instances.

End RelateGeometryMore.

(* ====================================================================== *)
(** * Further properties of WKBWriter                                      *)
(* ====================================================================== *)

Module WKBWriterMore.
Import geom io WKBWriterTheory.
Local Open Scope write_scope.

Section Writer.
Context {bov : ByteOrderValues}.
Variable w : WKBWriter.

(** The type word [typeId | flag3D] of [writeGeometryType]. *)
Definition typeWord (typeId : Z) : Z :=
  Z.lor typeId (if outputDimension w =? 3 then to_int 2147483648 else 0).

(** The WKB type [write] passes on for each class. *)
Definition wkbTypeOf (g : Geometry) : Z :=
  match g with
  | Point _ => WKBConstants.wkbPoint
  | LineString _ | LinearRing _ => WKBConstants.wkbLineString
  | Polygon _ _ => WKBConstants.wkbPolygon
  | MultiPoint _ => WKBConstants.wkbMultiPoint
  | MultiLineString _ => WKBConstants.wkbMultiLineString
  | MultiPolygon _ => WKBConstants.wkbMultiPolygon
  | GeometryCollection _ => WKBConstants.wkbGeometryCollection
  end.

(** The bytes of a geometry, as a function of the geometry alone: byte
    order, type word, then the body. *)
Fixpoint encoding (g : Geometry) : list byte :=
  [byteOrder w mod 256]
  ++ putInt (typeWord (wkbTypeOf g)) (byteOrder w)
  ++ match g with
     | Point cs => sequenceBytes w cs false
     | LineString cs | LinearRing cs => sequenceBytes w cs true
     | Polygon shell holes =>
         putInt (Z.of_nat (length holes) + 1) (byteOrder w)
         ++ sequenceBytes w shell true
         ++ flat_map (fun cs => sequenceBytes w cs true) holes
     | MultiPoint gs | MultiLineString gs | MultiPolygon gs | GeometryCollection gs =>
         putInt (Z.of_nat (length gs)) (byteOrder w) ++ flat_map encoding gs
     end.

Lemma header_appends (typeId : Z) (body : Write) (bytes : list byte) :
  appends body bytes ->
  appends (writeByteOrder w ;; writeGeometryType w typeId ;; body)
          ([byteOrder w mod 256] ++ putInt (typeWord typeId) (byteOrder w) ++ bytes).
Proof.
  intros H. apply appends_andThen; [apply appends_emit |].
  apply appends_andThen; [apply appends_emit | exact H].
Qed.

Lemma write_appends (g : Geometry) :
  containsEmptyPoint g = false -> appends (write w g) (encoding g).
Proof.
  induction g as [cs | cs | cs | sh hs | gs IH | gs IH | gs IH | gs IH]
    using RelateGeometryTheory.Geometry_nested_ind; intros Hne.
  - cbn [write encoding wkbTypeOf containsEmptyPoint] in *.
    unfold writePoint. cbn [isEmpty]. rewrite Hne.
    apply header_appends, writeCoordinateSequence_appends.
  - apply header_appends, writeCoordinateSequence_appends.
  - apply header_appends, writeCoordinateSequence_appends.
  - cbn [write encoding wkbTypeOf]. unfold writePolygon. apply header_appends.
    apply appends_andThen; [apply appends_emit |].
    apply appends_andThen; [apply writeCoordinateSequence_appends |].
    apply appends_forEach. intros cs _. apply writeCoordinateSequence_appends.
  - rewrite (proj1 (write_collection w gs)). apply header_appends.
    apply appends_andThen; [apply appends_emit |]. apply appends_forEach.
    intros g Hg. rewrite Forall_forall in IH. apply (IH g Hg).
    cbn [containsEmptyPoint] in Hne.
    destruct (containsEmptyPoint g) eqn:E; [| reflexivity].
    rewrite <- Hne. symmetry. apply existsb_exists. now exists g.
  - rewrite (proj1 (proj2 (write_collection w gs))). apply header_appends.
    apply appends_andThen; [apply appends_emit |]. apply appends_forEach.
    intros g Hg. rewrite Forall_forall in IH. apply (IH g Hg).
    cbn [containsEmptyPoint] in Hne.
    destruct (containsEmptyPoint g) eqn:E; [| reflexivity].
    rewrite <- Hne. symmetry. apply existsb_exists. now exists g.
  - rewrite (proj1 (proj2 (proj2 (write_collection w gs)))). apply header_appends.
    apply appends_andThen; [apply appends_emit |]. apply appends_forEach.
    intros g Hg. rewrite Forall_forall in IH. apply (IH g Hg).
    cbn [containsEmptyPoint] in Hne.
    destruct (containsEmptyPoint g) eqn:E; [| reflexivity].
    rewrite <- Hne. symmetry. apply existsb_exists. now exists g.
  - rewrite (proj2 (proj2 (proj2 (write_collection w gs)))). apply header_appends.
    apply appends_andThen; [apply appends_emit |]. apply appends_forEach.
    intros g Hg. rewrite Forall_forall in IH. apply (IH g Hg).
    cbn [containsEmptyPoint] in Hne.
    destruct (containsEmptyPoint g) eqn:E; [| reflexivity].
    rewrite <- Hne. symmetry. apply existsb_exists. now exists g.
Qed.

(** [write] only appends: for a geometry without an empty Point the stream
    afterwards is the stream before followed by bytes that depend on the
    geometry and the writer's settings alone, not on what the stream held.
    Those bytes start with the geometry's own byte-order byte and type word,
    and for a collection they continue with the element count and the
    complete bytes of each element, one after the other. *)
Theorem write_appends_encoding (g : Geometry) :
  containsEmptyPoint g = false ->
  (forall os, write w g os = inr (os ++ encoding g))
  /\ (exists body,
         encoding g = [byteOrder w mod 256]
                      ++ putInt (typeWord (wkbTypeOf g)) (byteOrder w) ++ body)
  /\ (forall gs,
         static_cast_GeometryCollection g = Some gs ->
         encoding g = [byteOrder w mod 256]
                      ++ putInt (typeWord (wkbTypeOf g)) (byteOrder w)
                      ++ putInt (Z.of_nat (length gs)) (byteOrder w)
                      ++ flat_map encoding gs).
Proof.
  intros Hne. split; [| split].
  - exact (write_appends g Hne).
  - destruct g; cbn [encoding]; eexists; reflexivity.
  - intros gs Hc. destruct g; try discriminate; injection Hc as <-; reflexivity.
Qed.

(** ** The number of bytes *)

Definition coordinateSize (cs : CoordinateSequence) : nat :=
  if is3dOf w cs then 24%nat else 16%nat.

Definition sequenceSize (cs : CoordinateSequence) (sized : bool) : nat :=
  ((if sized then 4 else 0) + getSize cs * coordinateSize cs)%nat.

Fixpoint wkbSize (g : Geometry) : nat :=
  (5 + match g with
       | Point cs => sequenceSize cs false
       | LineString cs | LinearRing cs => sequenceSize cs true
       | Polygon shell holes =>
           4 + sequenceSize shell true
           + list_sum (map (fun cs => sequenceSize cs true) holes)
       | MultiPoint gs | MultiLineString gs | MultiPolygon gs | GeometryCollection gs =>
           4 + list_sum (map wkbSize gs)
       end)%nat.

Lemma flat_map_length_sum {A : Type} (f : A -> list byte) (size : A -> nat)
  (items : list A) :
  (forall a, In a items -> length (f a) = size a) ->
  length (flat_map f items) = list_sum (map size items).
Proof.
  induction items as [| a rest IH]; intros H; [reflexivity |].
  cbn [flat_map map list_sum]. rewrite length_app, H by now left.
  rewrite IH; [reflexivity |]. intros b Hb. apply H. now right.
Qed.

Lemma list_sum_constant (k n : nat) :
  forall s, list_sum (map (fun _ => k) (seq s n)) = (n * k)%nat.
Proof.
  induction n as [| n IH]; intros s; [reflexivity |].
  simpl. now rewrite IH.
Qed.

Lemma sequenceBytes_length (cs : CoordinateSequence) (sized : bool) :
  length (sequenceBytes w cs sized) = sequenceSize cs sized.
Proof.
  unfold sequenceBytes, sequenceSize, coordinateSize. rewrite length_app.
  rewrite (flat_map_length_sum _ (fun _ => if is3dOf w cs then 24%nat else 16%nat))
    by (intros i _; apply coordinateBytes_length).
  f_equal.
  - destruct sized; [apply putInt_size | reflexivity].
  - apply list_sum_constant.
Qed.

Lemma encoding_length (g : Geometry) : length (encoding g) = wkbSize g.
Proof.
  induction g as [cs | cs | cs | sh hs | gs IH | gs IH | gs IH | gs IH]
    using RelateGeometryTheory.Geometry_nested_ind; cbn [encoding wkbSize];
    rewrite !length_app, ?putInt_size, ?sequenceBytes_length; cbn [length];
    try reflexivity.
  - rewrite (flat_map_length_sum _ (fun cs => sequenceSize cs true))
      by (intros cs _; apply sequenceBytes_length). lia.
  - rewrite (flat_map_length_sum _ wkbSize)
      by (rewrite Forall_forall in IH; exact IH). lia.
  - rewrite (flat_map_length_sum _ wkbSize)
      by (rewrite Forall_forall in IH; exact IH). lia.
  - rewrite (flat_map_length_sum _ wkbSize)
      by (rewrite Forall_forall in IH; exact IH). lia.
  - rewrite (flat_map_length_sum _ wkbSize)
      by (rewrite Forall_forall in IH; exact IH). lia.
Qed.

(** The number of bytes [write] puts on the stream: 5 for byte order and
    type; for a point its coordinate; for a line 4 for the count and its
    coordinates; for a polygon 4 for the ring count and, per ring, 4 and its
    coordinates; for a collection 4 for the count and the sizes of the
    elements.  A coordinate takes 24 bytes when the output dimension and the
    dimension of its sequence are both above 2, and 16 otherwise. *)
Theorem write_size (g : Geometry) (os : list byte) :
  containsEmptyPoint g = false ->
  exists bytes,
    write w g os = inr (os ++ bytes) /\ length bytes = wkbSize g.
Proof.
  intros Hne. exists (encoding g). split; [apply (write_appends g Hne) |].
  apply encoding_length.
Qed.

(** ** The 3D flag *)

(** With output dimension 3 the type word of every geometry carries the 3D
    flag (the WKB type minus 2^31, as an int), whatever the dimension of the
    coordinate sequences is; with output dimension 2 it is the WKB type. *)
Lemma typeWord_flag (g : Geometry) :
  typeWord (wkbTypeOf g) =
    if outputDimension w =? 3 then wkbTypeOf g - 2147483648 else wkbTypeOf g.
Proof.
  unfold typeWord. destruct (outputDimension w =? 3); destruct g; reflexivity.
Qed.

(** A LineString whose coordinate sequence has dimension 2 or less, written
    with output dimension 3: the type word carries the 3D flag, and every
    coordinate is written with two ordinates, x and y, 16 bytes. *)
Theorem write_flags_3D_with_2D_coordinates (cs : CoordinateSequence) (os : list byte) :
  outputDimension w = 3 -> cs_dimension cs <= 2 ->
  write w (LineString cs) os =
    inr (os ++ [byteOrder w mod 256]
            ++ putInt (WKBConstants.wkbLineString - 2147483648) (byteOrder w)
            ++ putInt (Z.of_nat (getSize cs)) (byteOrder w)
            ++ flat_map (fun idx => putDouble (x (getAt cs idx)) (byteOrder w)
                                    ++ putDouble (y (getAt cs idx)) (byteOrder w))
                        (seq 0 (getSize cs)))
  /\ wkbSize (LineString cs) = (9 + 16 * getSize cs)%nat.
Proof.
  intros Hout Hdim.
  assert (H3 : is3dOf w cs = false).
  { unfold is3dOf. replace (cs_dimension cs >? 2) with false; [reflexivity |].
    symmetry. rewrite Z.gtb_ltb. apply Z.ltb_ge. lia. }
  split.
  - rewrite (write_appends (LineString cs) eq_refl). cbn [encoding].
    rewrite (typeWord_flag (LineString cs)), Hout. cbn [Z.eqb Pos.eqb wkbTypeOf].
    unfold sequenceBytes. rewrite H3.
    rewrite (flat_map_ext (coordinateBytes w cs false)
               (fun idx => putDouble (x (getAt cs idx)) (byteOrder w)
                           ++ putDouble (y (getAt cs idx)) (byteOrder w)))
      by (intros idx; unfold coordinateBytes; now rewrite app_nil_r).
    reflexivity.
  - cbn [wkbSize]. unfold sequenceSize, coordinateSize. rewrite H3. lia.
Qed.

(** ** Empty geometries *)

(** What is written for an empty geometry that is not a Point: an empty
    LineString is its header and the count 0; an empty Polygon (empty shell,
    no holes) is its header, the ring count 1 and one ring with the count 0;
    a collection without elements is its header and the count 0. *)
Theorem write_empty_geometries (cs : CoordinateSequence) (os : list byte) :
  cs_coords cs = [] ->
  write w (LineString cs) os
  = inr (os ++ [byteOrder w mod 256]
            ++ putInt (typeWord WKBConstants.wkbLineString) (byteOrder w)
            ++ putInt 0 (byteOrder w))
  /\ write w (Polygon cs []) os
     = inr (os ++ [byteOrder w mod 256]
               ++ putInt (typeWord WKBConstants.wkbPolygon) (byteOrder w)
               ++ putInt 1 (byteOrder w) ++ putInt 0 (byteOrder w))
  /\ write w (GeometryCollection []) os
     = inr (os ++ [byteOrder w mod 256]
               ++ putInt (typeWord WKBConstants.wkbGeometryCollection) (byteOrder w)
               ++ putInt 0 (byteOrder w))
  /\ wkbSize (LineString cs) = 9%nat /\ wkbSize (Polygon cs []) = 13%nat
  /\ wkbSize (GeometryCollection []) = 9%nat.
Proof.
  intros Hcs.
  assert (Hseq : sequenceBytes w cs true = putInt 0 (byteOrder w)).
  { unfold sequenceBytes, getSize. rewrite Hcs. cbn. apply app_nil_r. }
  assert (Hsize : sequenceSize cs true = 4%nat).
  { unfold sequenceSize, getSize. rewrite Hcs. reflexivity. }
  repeat split.
  - rewrite (write_appends (LineString cs) eq_refl). cbn [encoding wkbTypeOf].
    now rewrite Hseq.
  - rewrite (write_appends (Polygon cs []) eq_refl). cbn [encoding wkbTypeOf].
    rewrite Hseq. cbn. now rewrite app_nil_r.
  - rewrite (write_appends (GeometryCollection []) eq_refl). cbn [encoding wkbTypeOf].
    cbn. now rewrite app_nil_r.
  - cbn [wkbSize]. now rewrite Hsize.
  - cbn [wkbSize]. rewrite Hsize. reflexivity.
Qed.

End Writer.

(** ** Instances, with the bytes of [io.standin] *)

Section Instances.
Import io.standin.

Definition point_1_2 : Geometry := Point (seq2 [xy 1 2]).

(** GEOMETRYCOLLECTION (POINT (1 2)) written after a byte that is already on
    the stream. *)
Lemma write_appends_encoding_witness :
  write (mkWKBWriter 2 1) (GeometryCollection [point_1_2]) [7]
  = inr ([7] ++ [1;  7; 0; 0; 0;  1; 0; 0; 0;
                 1;  1; 0; 0; 0;  0; 0; 0; 0; 0; 0; 240; 63;  0; 0; 0; 0; 0; 0; 0; 64]).
Proof.
  exact (proj1 (write_appends_encoding (mkWKBWriter 2 1)
                  (GeometryCollection [point_1_2]) eq_refl) [7]).
Defined.

Lemma write_size_witness :
  exists bytes,
    write (mkWKBWriter 2 1) (GeometryCollection [point_1_2]) [] = inr ([] ++ bytes)
    /\ length bytes = 30%nat.
Proof.
  exact (write_size (mkWKBWriter 2 1) (GeometryCollection [point_1_2]) [] eq_refl).
Defined.

(** LINESTRING (1 2, 3 4), a 2-dimensional sequence, with output dimension 3:
    type word 0x80000002 and 16 bytes per coordinate. *)
Lemma write_flags_3D_with_2D_coordinates_witness :
  write (mkWKBWriter 3 1) (LineString (seq2 [xy 1 2; xy 3 4])) []
  = inr [1;  2; 0; 0; 128;  2; 0; 0; 0;
         0; 0; 0; 0; 0; 0; 240; 63;  0; 0; 0; 0; 0; 0; 0; 64;
         0; 0; 0; 0; 0; 0; 8; 64;  0; 0; 0; 0; 0; 0; 16; 64].
Proof.
  exact (proj1 (write_flags_3D_with_2D_coordinates (mkWKBWriter 3 1)
                  (seq2 [xy 1 2; xy 3 4]) [] eq_refl
                  (fun H : (2 ?= 2) = Gt => ltac:(discriminate H)))).
Defined.

(** POLYGON EMPTY, big-endian: ring count 1, then a ring of 0 points. *)
Lemma write_empty_geometries_witness :
  write (mkWKBWriter 2 0) (Polygon (seq2 []) []) []
  = inr [0;  0; 0; 0; 3;  0; 0; 0; 1;  0; 0; 0; 0].
Proof.
  exact (proj1 (proj2 (write_empty_geometries (mkWKBWriter 2 0) (seq2 []) [] eq_refl))).
Defined.

End Instances.

End WKBWriterMore.
